(** * lidar_transfer: the scan viewer and its driving loop

    A shallow embedding of [auxiliary/laserscanvis.py] (class [LaserScanVis])
    and of [visualize.py] ([parse_poses] and the [__main__] block), followed
    by the properties of the specification that concern them.

    Conventions of the embedding:
    - numpy float arrays hold IEEE 754 values, given by the Standard
      Library's [spec_float] and its operations, for any format
      ([prec], [emax]); nested lists stand for 2-D arrays;
    - a Python exception is a value of [exn]; a function that may raise
      returns a [result];
    - methods that mutate [self] or an argument return the new values;
    - calls into the scene toolkit are appended to a trace. *)

From Stdlib Require Import ZArith Lia Ascii String List SpecFloat.
From stdpp Require Import base option list strings sorting gmap.
Import ListNotations.

Local Open Scope string_scope.
Local Open Scope Z_scope.

(** ** Exceptions and results *)

Inductive exn :=
  | ValueError | IndexError | KeyError | AttributeError
  | ZeroDivisionError | AssertionError | LinAlgError.

Inductive result (A : Type) :=
  | Ok (a : A)
  | Raise (e : exn).
Arguments Ok {A} a.
Arguments Raise {A} e.

#[global] Instance result_ret : MRet result := fun _ a => Ok a.

#[global] Instance result_bind : MBind result := fun _ _ k r =>
  match r with
  | Ok a => k a
  | Raise e => Raise e
  end.

(** A missing attribute ([hasattr] false, or a plain access of it). *)
Definition getattr {A} (o : option A) : result A :=
  match o with
  | Some a => Ok a
  | None => Raise AttributeError
  end.

(** ** numpy on floats *)

Module Np.
Section Float.
Variables prec emax : Z.

Abbreviation float := spec_float.

Definition of_Z (z : Z) : float := binary_normalize prec emax z 0 false.

Definition is_nan (x : float) : bool :=
  match x with S754_nan => true | _ => false end.

Definition is_finite (x : float) : bool :=
  match x with S754_zero _ | S754_finite _ _ _ => true | _ => false end.

Definition sub : float -> float -> float := SFsub prec emax.
Definition mul : float -> float -> float := SFmul prec emax.
Definition div : float -> float -> float := SFdiv prec emax.

(** [x ** 2] on an array is numpy's square, [x * x]. *)
Definition square (x : float) : float := mul x x.

(** [np.minimum] and [np.maximum]: a NaN operand wins. *)
Definition minimum (a b : float) : float :=
  if is_nan a then a else if is_nan b then b
  else if SFltb b a then b else a.

Definition maximum (a b : float) : float :=
  if is_nan a then a else if is_nan b then b
  else if SFltb a b then b else a.

(** [a.min()] and [a.max()] of a 1-D array; an empty array raises. *)
Definition amin (a : list float) : result float :=
  match a with
  | [] => Raise ValueError
  | x :: xs => Ok (fold_left minimum xs x)
  end.

Definition amax (a : list float) : result float :=
  match a with
  | [] => Raise ValueError
  | x :: xs => Ok (fold_left maximum xs x)
  end.

(** The integer part of a finite float, rounded towards zero. *)
Definition trunc (x : float) : Z :=
  match x with
  | S754_finite s m e =>
      let a := match e with
               | Z.neg _ => Z.shiftr (Z.pos m) (- e)
               | _ => Z.shiftl (Z.pos m) e
               end in
      if s then - a else a
  | _ => 0
  end.

(** [astype(np.uint8)]: a value strictly between -1 and 256 is truncated;
    for any other value (NaN, infinities, out of range) the C cast numpy
    performs is undefined, and [undef] stands for what the platform
    yields. The result is a [uint8] whatever happens. *)
Definition astype_uint8 (undef : float -> Z) (x : float) : Z :=
  if is_finite x && (0 <=? trunc x) && (trunc x <? 256)
  then trunc x
  else undef x mod 256.
End Float.
End Np.

(** ** Arrays of two axes, masks and broadcasting *)

Definition grid (A : Type) := list (list A).

(** Pairing two axes of the same length; [e] is raised when they differ. *)
Fixpoint zip_exact {A B C} (e : exn) (f : A -> B -> result C)
    (la : list A) (lb : list B) : result (list C) :=
  match la, lb with
  | [], [] => Ok []
  | a :: la', b :: lb' =>
      c ← f a b; cs ← zip_exact e f la' lb'; Ok (c :: cs)
  | _, _ => Raise e
  end.

(** numpy's broadcasting along one axis: equal lengths pair up, an axis of
    length one is stretched, any other pair of lengths raises. *)
Definition broadcast {A B C} (f : A -> B -> result C)
    (la : list A) (lb : list B) : result (list C) :=
  if Nat.eqb (length la) (length lb) then zip_exact ValueError f la lb
  else match la, lb with
       | [a], _ => mapM (f a) lb
       | _, [b] => mapM (fun a => f a b) la
       | _, _ => Raise ValueError
       end.

(** [a op b] on two 2-D arrays. *)
Definition elementwise {A B C} (op : A -> B -> C) (a : grid A) (b : grid B)
  : result (grid C) :=
  broadcast (broadcast (fun x y => Ok (op x y))) a b.

(** [a[mask] = v]: a boolean index must have the shape of the array. *)
Definition mask_assign {A} (mask : grid bool) (a : grid A) (v : A)
  : result (grid A) :=
  zip_exact IndexError
    (zip_exact IndexError (fun (m : bool) x => Ok (if m then v else x))) mask a.

Definition grid_map {A B} (f : A -> B) (a : grid A) : grid B := map (map f) a.

(** The entry at row [i], column [j]. *)
Definition pixel {A} (a : grid A) (i j : nat) : option A :=
  row ← a !! i; row !! j.

(** ** Colours *)

(** Modelled from the spec: the arrays of colours are allocated in
    [auxiliary/laserscan.py], which is not part of the sources at hand; a
    colour is a triple of channel values (spec, section 3), the last axis
    of an H x W x 3 array, and "black" is the all-zero triple. *)
Definition rgb : Type := Z * Z * Z.

Definition black_rgb : rgb := (0, 0, 0).

(** [np.sum(c, axis=2)] at one pixel. *)
Definition channel_sum (c : rgb) : Z := let '(r, g, b) := c in r + g + b.

(** [c[..., ::-1]]: the channels in reverse order. *)
Definition reverse_channels (c : rgb) : rgb := let '(r, g, b) := c in (b, g, r).

(** The element type of a colour array decides what [abs(a - b)] is:
    unsigned bytes wrap around and are their own absolute value. *)
Inductive color_dtype := UInt8 | Wide.

Definition abs_sub (dt : color_dtype) (s t : Z) : Z :=
  match dt with
  | UInt8 => (s - t) mod 256
  | Wide => Z.abs (s - t)
  end.

Definition rgb_abs_sub (dt : color_dtype) (s t : rgb) : rgb :=
  let '(sr, sg, sb) := s in
  let '(tr, tg, tb) := t in
  (abs_sub dt sr tr, abs_sub dt sg tg, abs_sub dt sb tb).

Definition valid_rgb8 (c : rgb) : Prop :=
  let '(r, g, b) := c in 0 <= r < 256 /\ 0 <= g < 256 /\ 0 <= b < 256.

(** ** Scans *)

Definition point3 : Type := spec_float * spec_float * spec_float.

(** Modelled from the spec: the scan classes live in
    [auxiliary/laserscan.py], not at hand. Only the attributes the viewer
    reads are kept; an attribute a scan may lack ([hasattr]) is an option.
    [label_map] is the array [get_label_map()] hands out. *)
Record LaserScan := {
  points : list point3;
  unproj_range : list spec_float;
  label_color : option (list rgb);
  proj_range : grid spec_float;
  proj_color : option (grid rgb);
  label_map : option (grid Z);
  color_type : color_dtype;
  nclasses : Z;
}.

(** The target of a comparison: a scan with its adaption mode and, for
    some modes, the merged scan. *)
Record AdaptedScan := {
  scan_of : LaserScan;
  adaption : string;
  merged : option LaserScan;
}.

(** Modelled from the spec: [get_label_map] is a method of the scan
    classes, not at hand; it is taken to return the scan's own array of
    per-pixel label ids (spec, section 3), not a copy, so that writing to
    the result writes to the scan. *)
Definition get_label_map (s : LaserScan) : result (grid Z) := getattr (label_map s).

Definition with_proj_color (s : LaserScan) (color : grid rgb) : LaserScan :=
  {| points := points s; unproj_range := unproj_range s;
     label_color := label_color s; proj_range := proj_range s;
     proj_color := Some color; label_map := label_map s;
     color_type := color_type s; nclasses := nclasses s |}.

Definition with_label_map (s : LaserScan) (lmap : grid Z) : LaserScan :=
  {| points := points s; unproj_range := unproj_range s;
     label_color := label_color s; proj_range := proj_range s;
     proj_color := proj_color s; label_map := Some lmap;
     color_type := color_type s; nclasses := nclasses s |}.

(** ** The viewer: [class LaserScanVis] *)

Inductive canvas := ScanCanvas | SourceCanvas | TargetCanvas | DiffCanvas.

(** What the viewer asks of the scene toolkit, in the order it asks. *)
Inductive gui_call :=
  | CreateCanvas (c : canvas)
  | ConnectKeyPress (c : canvas)
  | DisconnectKeyPress (c : canvas)
  | CloseCanvas (c : canvas)
  | SetTitle (frame_no total : Z)
  | AppSleep (timeout : spec_float)
  | AppQuit.

(** What an image visual shows: an array of colours or one of scalars. *)
Inductive image :=
  | ColorImage (a : grid rgb)
  | ScalarImage (a : grid spec_float).

(** The visuals [set_data] is called on. *)
Record Panels := {
  scan_vis : option (list point3 * list rgb);
  img_vis : option image;
  diff_image_label : option (grid rgb);
  diff_image_depth : option (grid spec_float);
}.

Definition no_panels : Panels :=
  {| scan_vis := None; img_vis := None;
     diff_image_label := None; diff_image_depth := None |}.

Record LaserScanVis := {
  W : list Z;
  H : list Z;
  point_size : Z;
  frame : Z;
  nframes : Z;
  view_mode : string;
  show_label : bool;
  show_target : bool;
  show_mesh : bool;
  show_remissions : bool;
  show_diff : bool;
  show_range : bool;
  action : string;
  panels : Panels;
  gui : list gui_call;
}.

Module Vis.

Definition with_action (a : string) (self : LaserScanVis) : LaserScanVis :=
  {| W := W self; H := H self; point_size := point_size self;
     frame := frame self; nframes := nframes self; view_mode := view_mode self;
     show_label := show_label self; show_target := show_target self;
     show_mesh := show_mesh self; show_remissions := show_remissions self;
     show_diff := show_diff self; show_range := show_range self;
     action := a; panels := panels self; gui := gui self |}.

Definition with_view_mode (m : string) (self : LaserScanVis) : LaserScanVis :=
  {| W := W self; H := H self; point_size := point_size self;
     frame := frame self; nframes := nframes self; view_mode := m;
     show_label := show_label self; show_target := show_target self;
     show_mesh := show_mesh self; show_remissions := show_remissions self;
     show_diff := show_diff self; show_range := show_range self;
     action := action self; panels := panels self; gui := gui self |}.

Definition with_frame (f : Z) (self : LaserScanVis) : LaserScanVis :=
  {| W := W self; H := H self; point_size := point_size self;
     frame := f; nframes := nframes self; view_mode := view_mode self;
     show_label := show_label self; show_target := show_target self;
     show_mesh := show_mesh self; show_remissions := show_remissions self;
     show_diff := show_diff self; show_range := show_range self;
     action := action self; panels := panels self; gui := gui self |}.

Definition with_panels (p : Panels) (self : LaserScanVis) : LaserScanVis :=
  {| W := W self; H := H self; point_size := point_size self;
     frame := frame self; nframes := nframes self; view_mode := view_mode self;
     show_label := show_label self; show_target := show_target self;
     show_mesh := show_mesh self; show_remissions := show_remissions self;
     show_diff := show_diff self; show_range := show_range self;
     action := action self; panels := p; gui := gui self |}.

(** Appends toolkit calls to the trace. *)
Definition call (cs : list gui_call) (self : LaserScanVis) : LaserScanVis :=
  {| W := W self; H := H self; point_size := point_size self;
     frame := frame self; nframes := nframes self; view_mode := view_mode self;
     show_label := show_label self; show_target := show_target self;
     show_mesh := show_mesh self; show_remissions := show_remissions self;
     show_diff := show_diff self; show_range := show_range self;
     action := action self; panels := panels self; gui := gui self ++ cs |}.

Definition open_canvas (c : canvas) : list gui_call :=
  [CreateCanvas c; ConnectKeyPress c].

Definition shut_canvas (c : canvas) : list gui_call :=
  [DisconnectKeyPress c; CloseCanvas c].

(** [reset]: the pending action becomes "no" and the canvases are built,
    each with [key_press] connected. View boxes and visuals are left out
    of the trace; of the visuals used below, [scan_vis] is always made,
    [img_vis] under [if self.show_label], [diff_image_label] under
    [if self.show_diff] and [diff_image_depth] under [if self.show_range]
    within it. *)
Definition reset (self : LaserScanVis) : LaserScanVis :=
  call (open_canvas ScanCanvas ++ open_canvas SourceCanvas
        ++ (if show_target self then open_canvas TargetCanvas else [])
        ++ (if show_diff self then open_canvas DiffCanvas else []))
       (with_action "no" self).

(** [__init__], with the defaults of the keyword arguments left to the caller. *)
Definition init (W H : list Z)
    (show_mesh show_diff show_range show_remissions show_target show_label : bool)
  : LaserScanVis :=
  reset {| W := W; H := H; point_size := 3; frame := 0; nframes := 0;
           view_mode := "label";
           show_label := show_label; show_target := show_target;
           show_mesh := show_mesh; show_remissions := show_remissions;
           show_diff := show_diff; show_range := show_range;
           action := ""; panels := no_panels; gui := [] |}.

(** [destroy]: the 2-D canvases are disconnected and closed, then the
    application is told to quit. *)
Definition destroy (self : LaserScanVis) : LaserScanVis :=
  call (shut_canvas SourceCanvas
        ++ (if show_target self then shut_canvas TargetCanvas else [])
        ++ (if show_diff self then shut_canvas DiffCanvas else [])
        ++ [AppQuit])
       self.

(** [key_press]; [key] is [event.key], compared by name. *)
Definition key_press (self : LaserScanVis) (key : string) : LaserScanVis :=
  if String.eqb key "N" then with_action "next" self
  else if String.eqb key "B" then with_action "back" self
  else if String.eqb key "Q" || String.eqb key "Escape" then
    with_action "quit" (destroy self)
  else if String.eqb key "1" then with_view_mode "label" (with_action "change" self)
  else if String.eqb key "2" then with_view_mode "range" (with_action "change" self)
  else if String.eqb key "3" then with_view_mode "rem" (with_action "change" self)
  else self.

(** The toolkit's sleep: it lasts [timeout] and hands the keys pressed
    meanwhile, oldest first, to the connected handler. *)
Definition sleep (timeout : spec_float) (pressed : list string)
    (self : LaserScanVis) : LaserScanVis :=
  fold_left key_press pressed (call [AppSleep timeout] self).

(** [get_action]: returns the pending action and voids it. *)
Definition get_action (timeout : spec_float) (pressed : list string)
    (self : LaserScanVis) : string * LaserScanVis :=
  let self := sleep timeout pressed self in
  let ret := action self in
  (ret, with_action "no" self).

(** [set_title] *)
Definition set_title (self : LaserScanVis) : LaserScanVis :=
  call [SetTitle (frame self + 1) (nframes self)] self.

Definition set_scan_vis (d : list point3 * list rgb) (self : LaserScanVis) :=
  with_panels {| scan_vis := Some d; img_vis := img_vis (panels self);
                 diff_image_label := diff_image_label (panels self);
                 diff_image_depth := diff_image_depth (panels self) |} self.

Definition set_img_vis (d : image) (self : LaserScanVis) :=
  with_panels {| scan_vis := scan_vis (panels self); img_vis := Some d;
                 diff_image_label := diff_image_label (panels self);
                 diff_image_depth := diff_image_depth (panels self) |} self.

Definition set_diff_image_label (d : grid rgb) (self : LaserScanVis) :=
  with_panels {| scan_vis := scan_vis (panels self); img_vis := img_vis (panels self);
                 diff_image_label := Some d;
                 diff_image_depth := diff_image_depth (panels self) |} self.

Definition set_diff_image_depth (d : grid spec_float) (self : LaserScanVis) :=
  with_panels {| scan_vis := scan_vis (panels self); img_vis := img_vis (panels self);
                 diff_image_label := diff_image_label (panels self);
                 diff_image_depth := Some d |} self.

Section Display.
(** The float format of the arrays. *)
Variables prec emax : Z.
(** [x ** y] on floats (the C library's [pow]). *)
Variable fpow : spec_float -> spec_float -> spec_float.
(** What the platform's cast to [uint8] yields outside its domain. *)
Variable undef : spec_float -> Z.
(** [auxiliary.tools.get_mpl_colormap] and [auxiliary.tools.convert_range],
    which are not part of the sources at hand. *)
Variable get_mpl_colormap : string -> list rgb.
Variable convert_range : grid spec_float -> grid spec_float.

(** [(a - a.min()) / (a.max() - a.min()) * 255], before the cast. *)
Definition min_max_scale (range_data : list spec_float) : result (list spec_float) :=
  lo ← Np.amin range_data;
  hi ← Np.amax range_data;
  Ok (map (fun x =>
             Np.mul prec emax
               (Np.div prec emax (Np.sub prec emax x lo) (Np.sub prec emax hi lo))
               (Np.of_Z prec emax 255))
          range_data).

(** [table[index]] with an array of indices. *)
Definition take_rows (table : list rgb) (index : list Z) : result (list rgb) :=
  mapM (fun i => match table !! Z.to_nat i with
                 | Some c => Ok c
                 | None => Raise IndexError
                 end) index.

(** [range_data ** (1 / power)] *)
Definition power_remap (power : Z) (range_data : list spec_float) : list spec_float :=
  map (fun x => fpow x (Np.div prec emax (Np.of_Z prec emax 1) (Np.of_Z prec emax power)))
      range_data.

(** The [else] branch of [set_laserscan]'s first part: the colours of the
    points when the scan carries no label colours. *)
Definition range_colors (unproj_range : list spec_float) : result (list rgb) :=
  let power := 16 in
  let range_data := unproj_range in
  let range_data := power_remap power range_data in
  scaled ← min_max_scale range_data;
  let viridis_range := map (Np.astype_uint8 undef) scaled in
  let viridis_map := get_mpl_colormap "viridis" in
  viridis_colors ← take_rows viridis_map viridis_range;
  Ok (map reverse_channels viridis_colors).

(** [set_laserscan]; [img_vis] exists when labels are shown (see [reset]),
    the access raises otherwise. *)
Definition set_laserscan (self : LaserScanVis) (scan : LaserScan)
  : LaserScanVis * option exn :=
  match (match label_color scan with
         | Some lc => Ok (map reverse_channels lc)
         | None => range_colors (unproj_range scan)
         end) with
  | Raise e => (self, Some e)
  | Ok face_color =>
      let self := set_scan_vis (points scan, face_color) self in
      let data :=
        match proj_color scan with
        | Some pc => ColorImage (grid_map reverse_channels pc)
        | None => ScalarImage (convert_range (proj_range scan))
        end in
      if show_label self then (set_img_vis data self, None)
      else (self, Some AttributeError)
  end.
End Display.

Section Diff.
Variables prec emax : Z.
Variable convert_range : grid spec_float -> grid spec_float.

(** The scan whose label image [set_diff] compares and masks: the merged
    scan under the adaption "cp", the target itself otherwise. *)
Definition labelled_target (scan_target : AdaptedScan) : result LaserScan :=
  if String.eqb (adaption scan_target) "cp" then getattr (merged scan_target)
  else Ok (scan_of scan_target).

(** Writing through the reference taken by [labelled_target]. *)
Definition store_labelled (scan_target : AdaptedScan) (s : LaserScan) : AdaptedScan :=
  if String.eqb (adaption scan_target) "cp" then
    {| scan_of := scan_of scan_target; adaption := adaption scan_target;
       merged := Some s |}
  else
    {| scan_of := s; adaption := adaption scan_target;
       merged := merged scan_target |}.

(** The element type of [a - b]. *)
Definition promote (a b : color_dtype) : color_dtype :=
  match a, b with UInt8, UInt8 => UInt8 | _, _ => Wide end.

(** [black = np.sum(source_label, axis=2) == 0], repeated over the channels. *)
Definition black_mask (source_label : grid rgb) : grid bool :=
  grid_map (fun c => channel_sum c =? 0) source_label.

(** [(source_range - target_range) ** 2] *)
Definition range_diff (source_range target_range : grid spec_float)
  : result (grid spec_float) :=
  elementwise (fun s t => Np.square prec emax (Np.sub prec emax s t))
              source_range target_range.

(** [abs(source_label - target_label)] *)
Definition label_diff (dt : color_dtype) (source_label target_label : grid rgb)
  : result (grid rgb) :=
  elementwise (rgb_abs_sub dt) source_label target_label.

(** [set_diff]. The arrays of the target are written in place, so the
    target is returned as the call leaves it, also when the call raises.
    The unused [unique_values], [empty] and the second [black] of the
    source are left out; [diff_image_depth] exists when ranges are shown
    (see [reset]), the access raises otherwise. Source and target are
    taken to be distinct objects. *)
Definition set_diff (self : LaserScanVis) (scan_source : LaserScan)
    (scan_target : AdaptedScan) : LaserScanVis * AdaptedScan * option exn :=
  if negb (show_diff self) then (self, scan_target, None) else
  match (source_label ← getattr (proj_color scan_source);
         source_label_map ← get_label_map scan_source;
         tgt ← labelled_target scan_target;
         target_label ← getattr (proj_color tgt);
         target_label_map ← get_label_map tgt;
         Ok (source_label, source_label_map, tgt, target_label, target_label_map)) with
  | Raise e => (self, scan_target, Some e)
  | Ok (source_label, source_label_map, tgt, target_label, target_label_map) =>
  (* Mask out no data (= black) in target scan *)
  match mask_assign (black_mask source_label) target_label black_rgb with
  | Raise e => (self, scan_target, Some e)
  | Ok target_label =>
  let tgt := with_proj_color tgt target_label in
  let scan_target := store_labelled scan_target tgt in
  match mask_assign (grid_map (fun l => l =? 0) source_label_map) target_label_map 0 with
  | Raise e => (self, scan_target, Some e)
  | Ok target_label_map =>
  let tgt := with_label_map tgt target_label_map in
  let scan_target := store_labelled scan_target tgt in
  match label_diff (promote (color_type scan_source) (color_type tgt))
                   source_label target_label with
  | Raise e => (self, scan_target, Some e)
  | Ok ldiff =>
  let self := set_diff_image_label (grid_map reverse_channels ldiff) self in
  (* Range diff image *)
  let source_range := proj_range scan_source in
  let target_range := proj_range (scan_of scan_target) in
  match range_diff source_range target_range with
  | Raise e => (self, scan_target, Some e)
  | Ok rdiff =>
  let data := convert_range rdiff in
  if show_range self then (set_diff_image_depth rdiff self, scan_target, None)
  else (self, scan_target, Some AttributeError)
  end end end end end.
End Diff.

End Vis.

(** ** The driver: [visualize.py] *)

Module Visualize.

(** *** [parse_poses] *)

Section Poses.
(** The scalars of the matrices (Python floats) with their zero, one, sum
    and product, and [np.linalg.inv], which fails on a singular matrix. *)
Context {F : Type}.
Variables f0 f1 : F.
Variables fadd fmul : F -> F -> F.
Variable linalg_inv : grid F -> option (grid F).

(** [np.zeros((r, c))] and [np.eye(4)] *)
Definition zeros (r c : nat) : grid F := replicate r (replicate c f0).

(** [m[i, 0:4] = vals] on a matrix of four columns: four values fill the
    row, a single one is broadcast, any other number raises. *)
Definition assign_row (m : grid F) (i : nat) (vals : list F) : result (grid F) :=
  match vals with
  | [v] => Ok (<[i := replicate 4 v]> m)
  | _ => if Nat.eqb (length vals) 4 then Ok (<[i := vals]> m)
         else Raise ValueError
  end.

(** [m[i, j] = v] *)
Definition assign_entry (m : grid F) (i j : nat) (v : F) : grid F :=
  match m !! i with
  | Some row => <[i := <[j := v]> row]> m
  | None => m
  end.

(** [values[a:b]] *)
Definition slice {A} (l : list A) (a b : nat) : list A := take (b - a) (drop a l).

(** The body of the loop up to [pose = cur_pose]. *)
Definition cur_pose (values : list F) : result (grid F) :=
  let m := zeros 4 4 in
  m ← assign_row m 0 (slice values 0 4);
  m ← assign_row m 1 (slice values 4 8);
  m ← assign_row m 2 (slice values 8 12);
  Ok (assign_entry m 3 3 f1).

Definition dot (u v : list F) : F :=
  fold_left fadd (zip_with fmul u v) f0.

Definition column (b : grid F) (j : nat) : list F :=
  omap (fun row : list F => row !! j) b.

Definition ncols (b : grid F) : nat :=
  match b with [] => 0 | row :: _ => length row end.

(** The product of a matrix by a matrix with [ncols b] columns. *)
Definition mat_product (a b : grid F) : grid F :=
  map (fun row => map (fun j => dot row (column b j)) (seq 0 (ncols b))) a.

(** [np.matmul(a, b)] on 2-D arrays: the rows of [a] must be as long as
    [b] has rows. *)
Definition matmul (a b : grid F) : result (grid F) :=
  if forallb (fun row => Nat.eqb (length row) (length b)) a
     && forallb (fun row => Nat.eqb (length row) (ncols b)) b
  then Ok (mat_product a b)
  else Raise ValueError.

(** [parse_poses]: [file] is the opened file, a line being the floats it
    holds ([float(v)] over its fields); [calibration] is the dictionary
    [parse_calibration] built. *)
Fixpoint read_poses (Tr Tr_inv : grid F) (file : list (list F)) (poses : list (grid F))
  : result (list (grid F)) :=
  match file with
  | [] => Ok poses
  | values :: file =>
      pose ← cur_pose values;
      inner ← matmul pose Tr;
      corrected ← matmul Tr_inv inner;
      read_poses Tr Tr_inv file (poses ++ [corrected])
  end.

Definition parse_poses (file : list (list F)) (calibration : gmap string (grid F))
  : result (list (grid F)) :=
  let poses := [] in
  Tr ← match calibration !! "Tr" with
       | Some m => Ok m
       | None => Raise KeyError
       end;
  Tr_inv ← match linalg_inv Tr with
           | Some m => Ok m
           | None => Raise LinAlgError
           end;
  read_poses Tr Tr_inv file poses.
End Poses.

(** *** Start-up: discovering the scans and the labels *)

(** [os.path.join] on POSIX paths. *)
Definition starts_with_sep (s : string) : bool :=
  match s with
  | String c _ => Ascii.eqb c "/"%char
  | EmptyString => false
  end.

Fixpoint ends_with_sep (s : string) : bool :=
  match s with
  | EmptyString => false
  | String c EmptyString => Ascii.eqb c "/"%char
  | String _ s' => ends_with_sep s'
  end.

Definition join2 (path b : string) : string :=
  if starts_with_sep b then b
  else if String.eqb path "" || ends_with_sep path then path +:+ b
  else path +:+ "/" +:+ b.

Definition path_join (a : string) (p : list string) : string := fold_left join2 p a.

(** [names.sort()] on strings: the order is the lexicographic one. *)
Definition name_le (a b : string) : Prop := String.leb a b = true.

#[global] Instance name_le_dec : RelDecision name_le.
Proof. intros a b. unfold name_le. apply _. Defined.

Definition sort_names (names : list string) : list string :=
  merge_sort name_le names.

(** The command line, as [argparse] hands it over. *)
Record Flags := {
  dataset : string;
  config : string;
  sequence : string;
  predictions : option string;
  ignore_semantics : bool;
  offset : Z;
}.

(** What the script asks of the file system: whether a YAML file loads (the
    message of the exception when it does not), whether a path is a
    directory, and the files [os.walk] finds below a path, each joined to
    its directory, in the order of the walk. *)
Record Files := {
  yaml_failure : string -> option string;
  isdir : string -> bool;
  walk : string -> list string;
}.

(** How the start-up ends: [quit()] after a message, an exception nobody
    catches (the interpreter prints the traceback and terminates), or both
    lists of names in hand and the script going on towards the viewing
    loop. [printed] holds the lines printed so far (the banner left out). *)
Inductive startup :=
  | Exit (printed : list string)
  | Uncaught (e : exn) (printed : list string)
  | Discovered (scan_names : list string) (label_names : option (list string))
               (printed : list string).

Definition scan_paths (FLAGS : Flags) : string :=
  path_join (dataset FLAGS) ["sequences"; sequence FLAGS; "velodyne"].

Definition label_paths (FLAGS : Flags) : string :=
  match predictions FLAGS with
  | Some p => path_join p ["sequences"; sequence FLAGS; "predictions"]
  | None => path_join (dataset FLAGS) ["sequences"; sequence FLAGS; "labels"]
  end.

(** The script from "open config file" to the check of the two counts. *)
Definition discover (FLAGS : Flags) (fs : Files) : startup :=
  let out := ["Opening config file " +:+ config FLAGS] in
  match yaml_failure fs (config FLAGS) with
  | Some e => Exit (out ++ [e; "Error opening yaml file."])
  | None =>
  (* does sequence folder exist? *)
  let scan_paths := scan_paths FLAGS in
  if negb (isdir fs scan_paths) then
    Exit (out ++ ["Sequence folder doesn't exist! Exiting..."])
  else
  let out :=
    (out ++ ["Sequence folder exists! Using sequence from " +:+ scan_paths])%list in
  (* get pointclouds filenames *)
  let scan_names := sort_names (walk fs scan_paths) in
  (* does label folder exist? *)
  if ignore_semantics FLAGS then Discovered scan_names None out else
  let label_paths := label_paths FLAGS in
  if negb (isdir fs label_paths) then
    Exit (out ++ ["Labels folder doesn't exist! Exiting..."])
  else
  let out :=
    (out ++ ["Labels folder exists! Using labels from " +:+ label_paths])%list in
  (* get label filenames *)
  let label_names := sort_names (walk fs label_paths) in
  (* check that there are same amount of labels and scans *)
  if Nat.eqb (length label_names) (length scan_names)
  then Discovered scan_names (Some label_names) out
  else Uncaught AssertionError out
  end.

(** Whether the start-up got past the checks, on to the viewing loop. *)
Definition goes_on (s : startup) : bool :=
  match s with Discovered _ _ _ => true | _ => false end.

(** *** The viewing loop *)

(** The poll interval, [0.01] as a Python float. *)
Definition poll_interval : spec_float :=
  Np.div 53 1024 (Np.of_Z 53 1024 1) (Np.of_Z 53 1024 100).

(** What the loop does with a choice other than "no", [n] being
    [len(scan_names)]: the next index when the loop goes round again,
    nothing when it is left. *)
Definition nav (n idx : Z) (choice : string) : result (option Z) :=
  if String.eqb choice "next" then
    (* take into account that we look further than one scan *)
    if n - 1 =? 0 then Raise ZeroDivisionError
    else Ok (Some ((idx + 1) mod (n - 1)))
  else if String.eqb choice "back" then
    let idx := idx - 1 in
    Ok (Some (if idx <? 0 then n - 1 else idx))
  else Ok None.

(** The head of an iteration, as far as the index and the viewer go:
    [scan_names[idx]] must exist (a negative index counts from the end),
    then the viewer is told the frame. Reading and projecting the frame,
    the frame source's business, and showing it are taken to succeed. *)
Definition show_frame (n idx : Z) (vis : LaserScanVis) : result LaserScanVis :=
  if (- n <=? idx) && (idx <? n)
  then Ok (Vis.set_title (Vis.with_frame idx vis))
  else Raise IndexError.

(** Where a run of the loop stands once the polls given are used up; a
    run in which a frame fails to load or to show is not described. *)
Inductive run :=
  | Polling (idx : Z) (vis : LaserScanVis)
  | Left (idx : Z) (vis : LaserScanVis)
  | Crashed (e : exn).

(** The loop from its inner polling loop on, frame [idx] being shown; each
    element of [polls] is one call of [get_action], with the keys pressed
    during its sleep. *)
Fixpoint viewing_loop (n idx : Z) (vis : LaserScanVis) (polls : list (list string))
  : run :=
  match polls with
  | [] => Polling idx vis
  | pressed :: polls =>
      let '(choice, vis) := Vis.get_action poll_interval pressed vis in
      if String.eqb choice "no" then viewing_loop n idx vis polls
      else match nav n idx choice with
           | Raise e => Crashed e
           | Ok None => Left idx vis
           | Ok (Some idx) =>
               match show_frame n idx vis with
               | Raise e => Crashed e
               | Ok vis => viewing_loop n idx vis polls
               end
           end
  end.

(** [idx = FLAGS.offset; while True: ...] *)
Definition main_loop (n offset : Z) (vis : LaserScanVis) (polls : list (list string))
  : run :=
  match show_frame n offset vis with
  | Raise e => Crashed e
  | Ok vis => viewing_loop n offset vis polls
  end.

Definition run_index (r : run) : option Z :=
  match r with
  | Polling idx _ | Left idx _ => Some idx
  | Crashed _ => None
  end.

End Visualize.

Import Visualize.

(** The display modes. *)
Definition is_view_mode (m : string) : Prop :=
  m = "label" \/ m = "range" \/ m = "rem".

(** The keys [key_press] reacts to. *)
Definition bound_keys : list string := ["N"; "B"; "Q"; "Escape"; "1"; "2"; "3"].

(** A key press that quits: [destroy] runs first, so the trace ends with
    the canvases disconnected and closed and the application quit. *)
Definition releases_then_quits (vis : LaserScanVis) (key : string) : Prop :=
  Vis.key_press vis key = Vis.with_action "quit" (Vis.destroy vis)
  /\ action (Vis.key_press vis key) = "quit"
  /\ gui (Vis.key_press vis key)
     = (gui vis
        ++ [DisconnectKeyPress SourceCanvas; CloseCanvas SourceCanvas]
        ++ (if show_target vis
            then [DisconnectKeyPress TargetCanvas; CloseCanvas TargetCanvas]
            else [])
        ++ (if show_diff vis
            then [DisconnectKeyPress DiffCanvas; CloseCanvas DiffCanvas]
            else [])
        ++ [AppQuit])%list.

(** Two arrays of one shape, and an array whose entries are all finite. *)
Definition same_shape {A B} (a : grid A) (b : grid B) : Prop :=
  Forall2 (fun r s => length r = length s) a b.

Definition all_finite (a : grid spec_float) : Prop :=
  Forall (Forall (fun x => Np.is_finite x = true)) a.

(** ** Values and notions the properties are stated with *)

(** The viewer as [visualize.py] builds it, for a 64 x 900 sensor. *)
Definition demo_vis : LaserScanVis :=
  Vis.init [900; 900] [64; 64] false false false false true true.

(** A viewer with the difference and range panels on. *)
Definition diff_vis : LaserScanVis :=
  Vis.init [900; 900] [64; 64] false true true false true true.

(** A command line and a file system with two scans and one label file. *)
Definition demo_flags : Flags :=
  {| dataset := "/data"; config := "config/lidar_transfer.yaml";
     sequence := "00"; predictions := None; ignore_semantics := false;
     offset := 0 |}.

Definition demo_files : Files :=
  {| yaml_failure := fun _ => None;
     isdir := fun _ => true;
     walk := fun p =>
       if String.eqb p "/data/sequences/00/velodyne"
       then ["/data/sequences/00/velodyne/000001.bin";
             "/data/sequences/00/velodyne/000000.bin"]
       else ["/data/sequences/00/labels/000000.label"] |}.

(** Floats of the binary64 format, for the examples. *)
Definition f64 (z : Z) : spec_float := Np.of_Z 53 1024 z.

(** A source with one pixel that holds no data, and a target that holds
    a labelled point five units away at that pixel. *)
Definition demo_source : LaserScan :=
  {| points := []; unproj_range := []; label_color := None;
     proj_range := [[f64 0]]; proj_color := Some [[black_rgb]];
     label_map := Some [[0]]; color_type := UInt8; nclasses := 20 |}.

Definition demo_target : AdaptedScan :=
  {| scan_of :=
       {| points := []; unproj_range := []; label_color := None;
          proj_range := [[f64 5]]; proj_color := Some [[(245, 150, 100)]];
          label_map := Some [[10]]; color_type := UInt8; nclasses := 20 |};
     adaption := "mesh"; merged := None |}.

(** The masks [set_diff] applies to the target, written out per pixel. *)
Definition masked_colors (source_label target_label : grid rgb) : grid rgb :=
  zip_with (zip_with (fun (c x : rgb) => if channel_sum c =? 0 then black_rgb else x))
           source_label target_label.

Definition masked_labels (source_map target_map : grid Z) : grid Z :=
  zip_with (zip_with (fun (l x : Z) => if l =? 0 then 0 else x))
           source_map target_map.

(** A sixteenth root by four square roots, standing for the C library's
    [pow] in the examples; a grey colour map of 256 rows. *)
Definition root16 (x y : spec_float) : spec_float :=
  SFsqrt 53 1024 (SFsqrt 53 1024 (SFsqrt 53 1024 (SFsqrt 53 1024 x))).

Definition gray_map (name : string) : list rgb :=
  map (fun i => (i, i, i)) (seqZ 0 256).

#[global] Instance valid_rgb8_dec (c : rgb) : Decision (valid_rgb8 c).
Proof. destruct c as [[r g] b]. unfold valid_rgb8. apply _. Defined.

(** A 4 x 4 matrix; the pose a line of twelve values stands for. *)
Definition is_4x4 {F} (m : grid F) : Prop :=
  length m = 4%nat /\ Forall (fun row => length row = 4%nat) m.

Definition pose_matrix {F} (f0 f1 : F) (values : list F) : grid F :=
  [take 4 values; take 4 (drop 4 values); take 4 (drop 8 values); [f0; f0; f0; f1]].

(** The pose [parse_poses] appends for a line: [Tr_inv . (pose . Tr)]. *)
Definition corrected {F} (f0 f1 : F) (fadd fmul : F -> F -> F)
    (Tr Tr_inv : grid F) (values : list F) : grid F :=
  mat_product f0 fadd fmul Tr_inv
    (mat_product f0 fadd fmul (pose_matrix f0 f1 values) Tr).

(** A calibration over the integers: a shift by two along x, its inverse,
    and an inversion that knows this one matrix. *)
Definition demo_Tr : grid Z :=
  [[1; 0; 0; 2]; [0; 1; 0; 0]; [0; 0; 1; 0]; [0; 0; 0; 1]].

Definition demo_Tr_inv : grid Z :=
  [[1; 0; 0; -2]; [0; 1; 0; 0]; [0; 0; 1; 0]; [0; 0; 0; 1]].

Definition demo_inv (m : grid Z) : option (grid Z) :=
  if decide (m = demo_Tr) then Some demo_Tr_inv else None.

Definition demo_calibration : gmap string (grid Z) := {[ "Tr" := demo_Tr ]}.

(** ** The rest of the driver and of the viewer *)

(** *** [parse_calibration] *)

(** [s.split(sep)] for a separator of one character: one part more than
    there are separators. *)
Fixpoint split_on (sep : ascii) (s : string) : list string :=
  match s with
  | EmptyString => [""]
  | String c s' =>
      if Ascii.eqb c sep then "" :: split_on sep s'
      else match split_on sep s' with
           | part :: parts => String c part :: parts
           | [] => [String c ""]
           end
  end.

Fixpoint count_char (c : ascii) (s : string) : nat :=
  match s with
  | EmptyString => 0
  | String c' s' => (if Ascii.eqb c' c then 1 else 0) + count_char c s'
  end.

Section Calibration.
(** The scalars, as for [parse_poses]; [strip] is [str.strip], and
    [float_fields content] is [[float(v) for v in content.strip().split()]],
    which raises when a field is no float. *)
Context {F : Type}.
Variables f0 f1 : F.
Variable strip : string -> string.
Variable float_fields : string -> result (list F).

(** The loop of [parse_calibration]: [key, content = line.strip().split(":")]
    needs exactly two parts; the matrix is built by the very statements of
    [parse_poses] ([cur_pose]); [calib[key] = pose] overwrites. *)
Fixpoint read_calibration (calib_file : list string) (calib : gmap string (grid F))
  : result (gmap string (grid F)) :=
  match calib_file with
  | [] => Ok calib
  | line :: calib_file =>
      match split_on ":" (strip line) with
      | [key; content] =>
          values ← float_fields content;
          pose ← cur_pose f0 f1 values;
          read_calibration calib_file (<[key := pose]> calib)
      | _ => Raise ValueError
      end
  end.

Definition parse_calibration (calib_file : list string)
  : result (gmap string (grid F)) :=
  read_calibration calib_file ∅.

(** What a line of the calibration file must be for the loop to go on. *)
Definition calibration_line (line key : string) (pose : grid F) : Prop :=
  exists content values,
    split_on ":" (strip line) = [key; content]
    /\ float_fields content = Ok values
    /\ cur_pose f0 f1 values = Ok pose.
End Calibration.

(** The numbers of values [cur_pose] takes. *)
Definition accepted_length (n : nat) : Prop := n = 9%nat \/ (12 <= n)%nat.

(** *** [set_source_3d] *)

(** The source scan of the 3-D view: a scan and its remissions. *)
Record SourceScan := {
  source_scan : LaserScan;
  remissions : list spec_float;
}.

(** What [set_source_3d] may raise: an exception as before, or the
    [UnboundLocalError] of a local variable read before any assignment. *)
Inductive raised :=
  | UnboundLocalError
  | Exception (e : exn).

Section Source3D.
Variables prec emax : Z.
Variable fpow : spec_float -> spec_float -> spec_float.
Variable undef : spec_float -> Z.
Variable get_mpl_colormap : string -> list rgb.

Definition lift {A} (r : result A) : A + raised :=
  match r with
  | Ok a => inl a
  | Raise e => inr (Exception e)
  end.

(** [(range_data * 255).astype(np.uint8)] *)
Definition remission_index (range_data : list spec_float) : list Z :=
  map (fun x => Np.astype_uint8 undef (Np.mul prec emax x (Np.of_Z prec emax 255)))
      range_data.

(** The colours [set_source_3d] computes, by the display mode. In the
    modes other than label, [viridis_range] is assigned under "range" and
    under "rem" only. *)
Definition source_colors (view_mode : string) (scan_source : SourceScan)
  : list rgb + raised :=
  if String.eqb view_mode "label" then
    lift (getattr (label_color (source_scan scan_source)))
  else
    match (if String.eqb view_mode "range" then
             let range_data := unproj_range (source_scan scan_source) in
             let power := 2 in
             let range_data := Vis.power_remap prec emax fpow power range_data in
             match Vis.min_max_scale prec emax range_data with
             | Ok scaled => inl (map (Np.astype_uint8 undef) scaled)
             | Raise e => inr (Exception e)
             end
           else if String.eqb view_mode "rem" then
             inl (remission_index (remissions scan_source))
           else inr UnboundLocalError) with
    | inr r => inr r
    | inl viridis_range =>
        let viridis_map := get_mpl_colormap "viridis" in
        lift (Vis.take_rows viridis_map viridis_range)
    end.

(** [set_source_3d] *)
Definition set_source_3d (self : LaserScanVis) (scan_source : SourceScan)
  : LaserScanVis * option raised :=
  let points := points (source_scan scan_source) in
  match source_colors (view_mode self) scan_source with
  | inr r => (self, Some r)
  | inl colors =>
      (Vis.set_scan_vis (points, map reverse_channels colors) self, None)
  end.
End Source3D.

(** *** States of the viewer *)

(** The driver's [vis.nframes = len(scan_names)]. *)
Definition with_nframes (n : Z) (self : LaserScanVis) : LaserScanVis :=
  {| W := W self; H := H self; point_size := point_size self;
     frame := frame self; nframes := n; view_mode := view_mode self;
     show_label := show_label self; show_target := show_target self;
     show_mesh := show_mesh self; show_remissions := show_remissions self;
     show_diff := show_diff self; show_range := show_range self;
     action := action self; panels := panels self; gui := gui self |}.

(** The viewers a program can hold: built by [__init__], then changed by
    the methods of the class and by the assignments of the driver
    ([vis.nframes = ...], [vis.frame = idx]). The methods embedded above
    have a constructor each. The others ([set_laserscans],
    [set_source_scan], [set_data], [set_diff2], [set_mesh], [set_points],
    [set_target_3d]) and the driver's calls on the visuals write to visuals
    and canvas titles only; [reach_display] stands for all of them, and
    allows more than they do: any change of what the visuals hold and any
    further toolkit calls. *)
Inductive reachable : LaserScanVis -> Prop :=
  | reach_init W H mesh diff range rem target label :
      reachable (Vis.init W H mesh diff range rem target label)
  | reach_reset vis : reachable vis -> reachable (Vis.reset vis)
  | reach_destroy vis : reachable vis -> reachable (Vis.destroy vis)
  | reach_nframes n vis : reachable vis -> reachable (with_nframes n vis)
  | reach_frame idx vis : reachable vis -> reachable (Vis.with_frame idx vis)
  | reach_set_title vis : reachable vis -> reachable (Vis.set_title vis)
  | reach_key_press vis key :
      reachable vis -> reachable (Vis.key_press vis key)
  | reach_get_action vis timeout pressed :
      reachable vis -> reachable (snd (Vis.get_action timeout pressed vis))
  | reach_set_laserscan prec emax fpow undef cmap conv vis scan :
      reachable vis ->
      reachable (fst (Vis.set_laserscan prec emax fpow undef cmap conv vis scan))
  | reach_set_diff prec emax conv vis source target :
      reachable vis ->
      reachable (fst (fst (Vis.set_diff prec emax conv vis source target)))
  | reach_set_source_3d prec emax fpow undef cmap vis scan_source :
      reachable vis ->
      reachable (fst (set_source_3d prec emax fpow undef cmap vis scan_source))
  | reach_display shown calls vis :
      reachable vis -> reachable (Vis.call calls (Vis.with_panels shown vis)).

(** *** Notions for the further properties *)

(** The action and the display mode a key stores, if any. *)
Definition key_action (key : string) : option string :=
  if String.eqb key "N" then Some "next"
  else if String.eqb key "B" then Some "back"
  else if String.eqb key "Q" || String.eqb key "Escape" then Some "quit"
  else if String.eqb key "1" || String.eqb key "2" || String.eqb key "3"
  then Some "change"
  else None.

Definition key_mode (key : string) : option string :=
  if String.eqb key "1" then Some "label"
  else if String.eqb key "2" then Some "range"
  else if String.eqb key "3" then Some "rem"
  else None.

(** A float that is not below zero: NaN, or one whose sign bit is clear. *)
Definition nan_or_positive (x : spec_float) : Prop :=
  match x with
  | S754_nan => True
  | S754_zero s | S754_infinity s | S754_finite s _ _ => s = false
  end.

(** Stand-ins for [str.strip] and for the reading of floats in the
    examples: lines without outer blanks, and one known content. *)
Definition demo_fields (content : string) : result (list Z) :=
  if String.eqb content " 1 0 0 2 0 1 0 0 0 0 1 0"
  then Ok [1; 0; 0; 2; 0; 1; 0; 0; 0; 0; 1; 0]
  else Raise ValueError.

Definition demo_parse_calibration : list string -> result (gmap string (grid Z)) :=
  parse_calibration 0 1 id demo_fields.

(** What [set_diff] leaves of its target when the difference panel is on,
    read off its first half: nothing is written before both label arrays
    of both scans are in hand, then the label image, then the label map. *)
Definition target_after (scan_source : LaserScan) (scan_target : AdaptedScan)
  : AdaptedScan :=
  match proj_color scan_source, label_map scan_source,
        Vis.labelled_target scan_target with
  | Some source_label, Some source_label_map, Ok tgt =>
      match proj_color tgt, label_map tgt with
      | Some target_label, Some target_label_map =>
          match mask_assign (Vis.black_mask source_label) target_label black_rgb with
          | Raise _ => scan_target
          | Ok target_label =>
              let tgt := with_proj_color tgt target_label in
              match mask_assign (grid_map (fun l => l =? 0) source_label_map)
                                target_label_map 0 with
              | Raise _ => Vis.store_labelled scan_target tgt
              | Ok target_label_map =>
                  Vis.store_labelled scan_target (with_label_map tgt target_label_map)
              end
          end
      | _, _ => scan_target
      end
  | _, _, _ => scan_target
  end.

(** * Properties *)

(** ** The pending action and the keys *)

Section ViewerFacts.
Implicit Types (vis : LaserScanVis) (key : string).

Lemma action_call cs vis : action (Vis.call cs vis) = action vis.
Proof. reflexivity. Qed.

Lemma view_mode_call cs vis : view_mode (Vis.call cs vis) = view_mode vis.
Proof. reflexivity. Qed.

Lemma key_press_unbound vis key :
  key ∉ bound_keys -> Vis.key_press vis key = vis.
Proof.
  intros Hk. unfold Vis.key_press.
  repeat match goal with
  | |- context [String.eqb key ?k] =>
      destruct (String.eqb_spec key k) as [->|_];
      [exfalso; apply Hk; unfold bound_keys; set_solver|]
  end.
  reflexivity.
Qed.

Lemma key_press_view_mode vis key :
  is_view_mode (view_mode vis) -> is_view_mode (view_mode (Vis.key_press vis key)).
Proof.
  intros Hm. unfold Vis.key_press, is_view_mode.
  repeat match goal with
  | |- context [String.eqb key ?k] => destruct (String.eqb key k)
  end; simpl; auto.
Qed.

Lemma fold_key_press_view_mode pressed : forall vis,
  is_view_mode (view_mode vis) ->
  is_view_mode (view_mode (fold_left Vis.key_press pressed vis)).
Proof.
  induction pressed as [|k ks IH]; simpl; intros vis Hm; [exact Hm|].
  apply IH, key_press_view_mode, Hm.
Qed.

Lemma sleep_view_mode timeout pressed vis :
  is_view_mode (view_mode vis) ->
  is_view_mode (view_mode (Vis.sleep timeout pressed vis)).
Proof. intros Hm. unfold Vis.sleep. apply fold_key_press_view_mode, Hm. Qed.

Lemma set_laserscan_view_mode prec emax fpow undef cmap conv vis scan :
  view_mode (fst (Vis.set_laserscan prec emax fpow undef cmap conv vis scan))
  = view_mode vis.
Proof.
  unfold Vis.set_laserscan.
  repeat case_match; reflexivity.
Qed.

Lemma set_diff_view_mode prec emax conv vis source target :
  view_mode (fst (fst (Vis.set_diff prec emax conv vis source target)))
  = view_mode vis.
Proof.
  unfold Vis.set_diff.
  repeat case_match; reflexivity.
Qed.

Lemma set_source_3d_view_mode prec emax fpow undef cmap vis scan_source :
  view_mode (fst (set_source_3d prec emax fpow undef cmap vis scan_source))
  = view_mode vis.
Proof.
  unfold set_source_3d.
  destruct (source_colors prec emax fpow undef cmap (view_mode vis) scan_source);
    reflexivity.
Qed.

Lemma reachable_view_mode vis : reachable vis -> is_view_mode (view_mode vis).
Proof.
  induction 1; simpl; try assumption.
  - left. reflexivity.
  - apply key_press_view_mode. assumption.
  - apply sleep_view_mode. assumption.
  - rewrite set_laserscan_view_mode. assumption.
  - rewrite set_diff_view_mode. assumption.
  - rewrite set_source_3d_view_mode. assumption.
Qed.
End ViewerFacts.

(** C3. [get_action] hands out the stored action and stores "no": a read
    with no key pressed meanwhile returns the pending action, any read
    leaves "no" behind, so the read that follows it (again with no key
    pressed) returns "no"; [reset] stores "no" as well. *)
Theorem get_action_read_and_clear (vis : LaserScanVis)
    (t1 t2 : spec_float) (pressed : list string) :
  fst (Vis.get_action t1 [] vis) = action vis
  /\ action (snd (Vis.get_action t1 pressed vis)) = "no"
  /\ fst (Vis.get_action t2 [] (snd (Vis.get_action t1 pressed vis))) = "no"
  /\ fst (Vis.get_action t1 pressed vis)
     = action (fold_left Vis.key_press pressed (Vis.call [AppSleep t1] vis))
  /\ action (Vis.reset vis) = "no".
Proof. repeat split. Qed.

(** C5. [key_press] maps N to "next", B to "back", Q and Escape to "quit"
    once [destroy] has released the canvases and told the application to
    quit, and 1, 2, 3 to "change" with the display mode set to label,
    range and rem. *)
Theorem key_press_bindings (vis : LaserScanVis) :
  action (Vis.key_press vis "N") = "next"
  /\ action (Vis.key_press vis "B") = "back"
  /\ releases_then_quits vis "Q"
  /\ releases_then_quits vis "Escape"
  /\ (action (Vis.key_press vis "1") = "change"
      /\ view_mode (Vis.key_press vis "1") = "label")
  /\ (action (Vis.key_press vis "2") = "change"
      /\ view_mode (Vis.key_press vis "2") = "range")
  /\ (action (Vis.key_press vis "3") = "change"
      /\ view_mode (Vis.key_press vis "3") = "rem").
Proof. unfold releases_then_quits. repeat split. Qed.

(** C10. The display mode of a viewer is always one of label, range and
    rem: [__init__] sets label, and no method of the class and no
    assignment of the driver leaves the three; a key
    press on a key other than N, B, Q, Escape, 1, 2, 3 changes neither the
    pending action nor the display mode (nor anything else). *)
Theorem view_mode_invariant (vis : LaserScanVis) (key : string) :
  reachable vis ->
  key ∉ bound_keys ->
  is_view_mode (view_mode vis)
  /\ action (Vis.key_press vis key) = action vis
  /\ view_mode (Vis.key_press vis key) = view_mode vis
  /\ Vis.key_press vis key = vis
  /\ (forall W H mesh diff range rem target label,
        view_mode (Vis.init W H mesh diff range rem target label) = "label").
Proof.
  intros Hr Hk. split; [apply reachable_view_mode, Hr|].
  rewrite (key_press_unbound vis key Hk). repeat split.
Qed.

(** An instance of C10: the viewer of the driver, told of four frames;
    after the key 2 the mode is range, and the key X changes nothing. *)
Lemma view_mode_invariant_witness :
  is_view_mode (view_mode (Vis.key_press (with_nframes 4 demo_vis) "2"))
  /\ action (Vis.key_press (Vis.key_press (with_nframes 4 demo_vis) "2") "X")
     = "change"
  /\ view_mode (Vis.key_press (Vis.key_press (with_nframes 4 demo_vis) "2") "X")
     = "range".
Proof.
  destruct (view_mode_invariant
              (Vis.key_press (with_nframes 4 demo_vis) "2") "X")
    as (Hm & Ha & Hv & _).
  - apply reach_key_press, reach_nframes, reach_init.
  - unfold bound_keys. intros Hin.
    repeat (apply elem_of_cons in Hin as [Hin|Hin]; [discriminate Hin|]).
    apply elem_of_nil in Hin. exact Hin.
  - split; [exact Hm|]. split; [exact Ha | exact Hv].
Defined.

(** ** The viewing loop *)

Section Navigation.
Import Visualize.

Lemma get_action_key vis timeout key :
  fst (Vis.get_action timeout [key] vis)
  = action (Vis.key_press (Vis.call [AppSleep timeout] vis) key).
Proof. reflexivity. Qed.

Lemma show_frame_in_range n idx vis :
  0 <= idx < n ->
  show_frame n idx vis = Ok (Vis.set_title (Vis.with_frame idx vis)).
Proof.
  intros Hi. unfold show_frame.
  replace (- n <=? idx) with true by (symmetry; apply Z.leb_le; lia).
  replace (idx <? n) with true by (symmetry; apply Z.ltb_lt; lia).
  reflexivity.
Qed.

Lemma nav_next n idx :
  n - 1 <> 0 -> nav n idx "next" = Ok (Some ((idx + 1) mod (n - 1))).
Proof.
  intros Hn. unfold nav. simpl.
  destruct (Z.eqb_spec (n - 1) 0) as [E|_]; [contradiction|reflexivity].
Qed.

Lemma nav_back n idx :
  nav n idx "back" = Ok (Some (if idx - 1 <? 0 then n - 1 else idx - 1)).
Proof. reflexivity. Qed.
Lemma viewing_loop_next n idx vis polls :
  2 <= n ->
  exists vis',
    viewing_loop n idx vis (["N"] :: polls)
    = viewing_loop n ((idx + 1) mod (n - 1)) vis' polls.
Proof.
  intros Hn. eexists. cbn [viewing_loop].
  change (Vis.get_action poll_interval ["N"] vis)
    with ("next", Vis.with_action "no"
                    (Vis.with_action "next" (Vis.call [AppSleep poll_interval] vis))).
  cbv iota beta. change (String.eqb "next" "no") with false. cbv iota.
  rewrite nav_next by lia.
  rewrite show_frame_in_range; [reflexivity|].
  pose proof (Z.mod_pos_bound (idx + 1) (n - 1)). lia.
Qed.

Lemma viewing_loop_back n idx vis polls :
  1 <= idx < n ->
  exists vis',
    viewing_loop n idx vis (["B"] :: polls) = viewing_loop n (idx - 1) vis' polls.
Proof.
  intros Hi. eexists. cbn [viewing_loop].
  change (Vis.get_action poll_interval ["B"] vis)
    with ("back", Vis.with_action "no"
                    (Vis.with_action "back" (Vis.call [AppSleep poll_interval] vis))).
  cbv iota beta. change (String.eqb "back" "no") with false. cbv iota.
  rewrite nav_back.
  replace (idx - 1 <? 0) with false by (symmetry; apply Z.ltb_ge; lia).
  rewrite show_frame_in_range by lia. reflexivity.
Qed.
End Navigation.

(** C2, as the loop has it. "next" computes [(idx + 1) mod (n - 1)], [n]
    being the number of scans: from any index, next, next, back ends on
    [(idx + 1) mod (n - 1)], one frame further, unless the second "next"
    lands on frame 0; the wrap to frame 0 happens on leaving frame
    [n - 2], the last but one. *)
Theorem next_next_back (n idx : Z) (vis : LaserScanVis) :
  2 <= n ->
  (idx + 2) mod (n - 1) <> 0 ->
  (exists vis',
      Visualize.viewing_loop n idx vis [["N"]; ["N"]; ["B"]]
      = Visualize.Polling ((idx + 1) mod (n - 1)) vis')
  /\ (0 <= idx -> idx + 2 < n - 1 -> (idx + 1) mod (n - 1) = idx + 1)
  /\ Visualize.nav n (n - 2) "next" = Ok (Some 0).
Proof.
  intros Hn Hk.
  assert (Hm : 0 < n - 1) by lia.
  pose proof (Z.mod_pos_bound (idx + 1) (n - 1) Hm) as Hj.
  assert (Hstep : ((idx + 1) mod (n - 1) + 1) mod (n - 1) = (idx + 2) mod (n - 1)).
  { rewrite Z.add_mod_idemp_l by lia. f_equal. lia. }
  assert (Hlt : (idx + 1) mod (n - 1) + 1 < n - 1).
  { destruct (Z.eq_dec ((idx + 1) mod (n - 1) + 1) (n - 1)) as [E|E]; [|lia].
    exfalso. apply Hk. rewrite <- Hstep, E. apply Z.mod_same. lia. }
  split; [|split].
  - destruct (viewing_loop_next n idx vis [["N"]; ["B"]] Hn) as [v1 ->].
    destruct (viewing_loop_next n ((idx + 1) mod (n - 1)) v1 [["B"]] Hn) as [v2 ->].
    rewrite (Z.mod_small ((idx + 1) mod (n - 1) + 1)) by lia.
    destruct (viewing_loop_back n ((idx + 1) mod (n - 1) + 1) v2 []) as [v3 ->]; [lia|].
    exists v3. cbn [Visualize.viewing_loop]. f_equal. lia.
  - intros H0 H2. apply Z.mod_small. lia.
  - rewrite nav_next by lia. do 2 f_equal.
    replace (n - 2 + 1) with (n - 1) by lia. apply Z.mod_same. lia.
Qed.

(** An instance of C2: seven scans, from frame 1. *)
Lemma next_next_back_witness :
  exists vis',
    Visualize.viewing_loop 7 1 demo_vis [["N"]; ["N"]; ["B"]]
    = Visualize.Polling 2 vis'.
Proof.
  destruct (next_next_back 7 1 demo_vis) as [H _]; [lia | discriminate | exact H].
Defined.

(** C2 as stated fails: with five scans, next, next, back from frame 2 ends
    on frame 4, not 3, and "next" on the last frame, 4, leads to frame 1,
    not to the first. *)
Lemma next_next_back_counterexample :
  Visualize.run_index (Visualize.viewing_loop 5 2 demo_vis [["N"]; ["N"]; ["B"]])
  = Some 4
  /\ 4 <> (2 + 1) mod 5
  /\ Visualize.nav 5 4 "next" = Ok (Some 1)
  /\ Visualize.nav 5 4 "next" <> Ok (Some 0).
Proof. repeat split; try reflexivity; discriminate. Qed.

(** ** Start-up *)

Lemma length_sort_names (names : list string) :
  length (Visualize.sort_names names) = length names.
Proof.
  unfold Visualize.sort_names. apply Permutation_length, merge_sort_Permutation.
Qed.

(** C8. With semantics not ignored, when the label files found are not as
    many as the scan files found, the start-up never gets past the check
    of the counts: it ends before, on a missing configuration or folder
    (a message, then [quit()]), or at the check itself, where the failed
    assertion terminates the process with its traceback. *)
Theorem mismatched_counts_abort (FLAGS : Flags) (fs : Files) :
  ignore_semantics FLAGS = false ->
  length (walk fs (Visualize.label_paths FLAGS))
  <> length (walk fs (Visualize.scan_paths FLAGS)) ->
  Visualize.goes_on (Visualize.discover FLAGS fs) = false
  /\ ((exists out, Visualize.discover FLAGS fs = Visualize.Exit out)
      \/ (exists out,
            Visualize.discover FLAGS fs = Visualize.Uncaught AssertionError out))
  /\ (yaml_failure fs (config FLAGS) = None ->
      isdir fs (Visualize.scan_paths FLAGS) = true ->
      isdir fs (Visualize.label_paths FLAGS) = true ->
      exists out,
        Visualize.discover FLAGS fs = Visualize.Uncaught AssertionError out).
Proof.
  intros Hsem Hlen.
  assert (Hne : Nat.eqb (length (Visualize.sort_names (walk fs (Visualize.label_paths FLAGS))))
                        (length (Visualize.sort_names (walk fs (Visualize.scan_paths FLAGS))))
                = false).
  { apply Nat.eqb_neq. rewrite !length_sort_names. exact Hlen. }
  unfold Visualize.discover. cbv zeta. rewrite Hsem, Hne.
  destruct (yaml_failure fs (config FLAGS)) as [msg|];
    [split; [reflexivity|split; [left; eauto|discriminate]]|].
  destruct (isdir fs (Visualize.scan_paths FLAGS)); cbn [negb];
    [|split; [reflexivity|split; [left; eauto|discriminate]]].
  destruct (isdir fs (Visualize.label_paths FLAGS)); cbn [negb];
    [|split; [reflexivity|split; [left; eauto|discriminate]]].
  split; [reflexivity|split; [right; eauto|eauto]].
Qed.

(** An instance of C8: two scans, one label file. *)
Lemma mismatched_counts_abort_witness :
  Visualize.discover demo_flags demo_files
  = Visualize.Uncaught AssertionError
      ["Opening config file config/lidar_transfer.yaml";
       "Sequence folder exists! Using sequence from /data/sequences/00/velodyne";
       "Labels folder exists! Using labels from /data/sequences/00/labels"]
  /\ Visualize.goes_on (Visualize.discover demo_flags demo_files) = false.
Proof.
  destruct (mismatched_counts_abort demo_flags demo_files) as (Hgo & _ & _).
  - reflexivity.
  - vm_compute. lia.
  - split; [vm_compute; reflexivity | exact Hgo].
Defined.

(** ** Floats: the sign of a difference does not reach its square *)

Section FloatFacts.
Variables prec emax : Z.

Lemma binary_round_aux_negb s m e l :
  binary_round_aux prec emax (negb s) m e l
  = SFopp (binary_round_aux prec emax s m e l).
Proof.
  unfold binary_round_aux.
  destruct (shr_fexp prec emax m e l) as [mrs e'].
  destruct (shr_fexp prec emax _ e' loc_Exact) as [mrs' e''].
  destruct (shr_m mrs'); [reflexivity| |reflexivity].
  destruct (e'' <=? emax - prec); reflexivity.
Qed.

Lemma binary_round_negb s m e :
  binary_round prec emax (negb s) m e = SFopp (binary_round prec emax s m e).
Proof.
  unfold binary_round.
  destruct (shl_align m e _) as [mz ez]. apply binary_round_aux_negb.
Qed.

Lemma SFopp_involutive x : SFopp (SFopp x) = x.
Proof. destruct x; simpl; rewrite ?Bool.negb_involutive; reflexivity. Qed.

Lemma binary_normalize_opp z e :
  binary_normalize prec emax (- z) e false = binary_normalize prec emax z e false
  \/ binary_normalize prec emax (- z) e false
     = SFopp (binary_normalize prec emax z e false).
Proof.
  destruct z as [|p|p]; simpl.
  - left. reflexivity.
  - right. apply (binary_round_negb false).
  - right. rewrite (binary_round_negb false), SFopp_involutive. reflexivity.
Qed.

Lemma square_opp x : Np.square prec emax (SFopp x) = Np.square prec emax x.
Proof.
  destruct x as [s|s| |s m e]; simpl; try reflexivity;
    unfold Np.square, Np.mul; simpl; destruct s; reflexivity.
Qed.

Lemma sub_swap a b :
  Np.sub prec emax b a = Np.sub prec emax a b
  \/ Np.sub prec emax b a = SFopp (Np.sub prec emax a b).
Proof.
  unfold Np.sub.
  destruct a as [sa|sa| |sa ma ea], b as [sb|sb| |sb mb eb];
    try (destruct sa, sb; simpl; auto; fail);
    try (destruct sa; simpl; auto; fail);
    try (destruct sb; simpl; auto; fail);
    try (simpl; auto; fail).
  unfold SFsub. rewrite (Z.min_comm eb ea).
  set (x := cond_Zopp sa _). set (y := cond_Zopp sb _).
  replace (y - x) with (- (x - y)) by lia.
  apply binary_normalize_opp.
Qed.

Lemma square_sub_swap a b :
  Np.square prec emax (Np.sub prec emax a b)
  = Np.square prec emax (Np.sub prec emax b a).
Proof.
  destruct (sub_swap a b) as [-> | ->]; [reflexivity|].
  symmetry. apply square_opp.
Qed.

Lemma sub_diag a :
  Np.is_finite a = true -> Np.sub prec emax a a = S754_zero false.
Proof.
  destruct a as [s|s| |s m e]; try discriminate; intros _.
  - destruct s; reflexivity.
  - unfold Np.sub, SFsub. rewrite Z.sub_diag. reflexivity.
Qed.

Lemma square_sub_diag a :
  Np.is_finite a = true ->
  Np.square prec emax (Np.sub prec emax a a) = S754_zero false.
Proof. intros Ha. rewrite sub_diag by exact Ha. reflexivity. Qed.
End FloatFacts.

(** ** Arrays *)

Lemma mapM_result_ext {A B} (f g : A -> result B) (l : list A) :
  (forall x, f x = g x) -> mapM f l = mapM g l.
Proof.
  intros Hfg. induction l as [|x l IH]; simpl; [reflexivity|].
  rewrite Hfg, IH. reflexivity.
Qed.

Lemma zip_exact_swap {A B C : Type} e (f : A -> B -> result C) (g : B -> A -> result C) la :
  (forall x y, f x y = g y x) ->
  forall lb, zip_exact e f la lb = zip_exact e g lb la.
Proof.
  intros Hfg. induction la as [|a la IH]; intros [|b lb]; simpl; try reflexivity.
  rewrite Hfg, IH. reflexivity.
Qed.

Lemma broadcast_swap {A B C : Type} (f : A -> B -> result C) (g : B -> A -> result C) la lb :
  (forall x y, f x y = g y x) ->
  broadcast f la lb = broadcast g lb la.
Proof.
  intros Hfg. unfold broadcast. rewrite (Nat.eqb_sym (length lb)).
  destruct (Nat.eqb (length la) (length lb)) eqn:E.
  - apply zip_exact_swap, Hfg.
  - destruct la as [|a [|a' la]], lb as [|b [|b' lb]];
      try discriminate E; try reflexivity;
      apply mapM_result_ext; intros x; rewrite Hfg; reflexivity.
Qed.

Lemma zip_exact_Forall2 {A B C : Type} e (f : A -> B -> result C) (g : A -> B -> C) la lb :
  Forall2 (fun a b => f a b = Ok (g a b)) la lb ->
  zip_exact e f la lb = Ok (zip_with g la lb).
Proof.
  induction 1 as [|a b la lb Hab _ IH]; simpl; [reflexivity|].
  rewrite Hab, IH. reflexivity.
Qed.

Lemma broadcast_same_length {A B C : Type} (f : A -> B -> result C) la lb :
  length la = length lb -> broadcast f la lb = zip_exact ValueError f la lb.
Proof. intros E. unfold broadcast. rewrite E, Nat.eqb_refl. reflexivity. Qed.

Lemma zip_exact_rows {A B C : Type} e (op : A -> B -> C) (r : list A) (s : list B) :
  length r = length s ->
  zip_exact e (fun x y => Ok (op x y)) r s = Ok (zip_with op r s).
Proof.
  intros E. apply zip_exact_Forall2.
  revert s E. induction r as [|x r IH]; intros [|y s] E; try discriminate E;
    constructor; [reflexivity|]. apply IH. simpl in E. lia.
Qed.

Lemma elementwise_same_shape {A B C : Type} (op : A -> B -> C) a b :
  same_shape a b -> elementwise op a b = Ok (zip_with (zip_with op) a b).
Proof.
  intros Hs. unfold elementwise.
  rewrite broadcast_same_length by (eapply Forall2_length, Hs).
  apply zip_exact_Forall2.
  induction Hs as [|r s a b Hrs _ IH]; constructor; [|exact IH].
  cbv beta. rewrite broadcast_same_length by exact Hrs.
  apply zip_exact_rows, Hrs.
Qed.

Lemma elementwise_swap {A B C : Type} (op : A -> B -> C) (op' : B -> A -> C) a b :
  (forall x y, op x y = op' y x) -> elementwise op a b = elementwise op' b a.
Proof.
  intros H. unfold elementwise. apply broadcast_swap.
  intros r s. apply broadcast_swap. intros x y. rewrite H. reflexivity.
Qed.


Lemma mask_assign_same_shape {A} (mask : grid bool) (a : grid A) (v : A) :
  same_shape mask a ->
  mask_assign mask a v
  = Ok (zip_with (zip_with (fun (m : bool) x => if m then v else x)) mask a).
Proof.
  intros Hs. unfold mask_assign. apply zip_exact_Forall2.
  induction Hs as [|r s m b Hrs _ IH]; constructor; [|exact IH].
  cbv beta. apply zip_exact_rows, Hrs.
Qed.

Lemma same_shape_refl {A} (a : grid A) : same_shape a a.
Proof. induction a; constructor; auto. Qed.

Lemma zip_with_diag_ext {A B} (op : A -> A -> B) (g : A -> B) (l : list A) :
  Forall (fun x => op x x = g x) l -> zip_with op l l = map g l.
Proof. induction 1 as [|x l Hx _ IH]; simpl; [reflexivity|]. rewrite Hx, IH. reflexivity. Qed.

(** ** The range difference *)

(** C7, as the arithmetic has it. The squared range difference of two
    images of one shape is, pixel by pixel, the square of the difference
    of the two ranges; computed from (b, a) it is the same array as from
    (a, b), whatever floats the images hold; and of an image with itself
    it is zero at every pixel when the image holds finite ranges only. *)
Theorem range_diff_symmetric (prec emax : Z) (a b : grid spec_float) :
  same_shape a b ->
  Vis.range_diff prec emax a b
  = Ok (zip_with (zip_with (fun s t => Np.square prec emax (Np.sub prec emax s t))) a b)
  /\ Vis.range_diff prec emax b a = Vis.range_diff prec emax a b
  /\ (all_finite a ->
      Vis.range_diff prec emax a a = Ok (grid_map (fun _ => S754_zero false) a)).
Proof.
  intros Hs. unfold Vis.range_diff. split; [|split].
  - apply elementwise_same_shape, Hs.
  - apply elementwise_swap. intros x y. apply square_sub_swap.
  - intros Hfin. rewrite elementwise_same_shape by apply same_shape_refl.
    f_equal. unfold grid_map.
    apply zip_with_diag_ext.
    eapply Forall_impl; [exact Hfin|]. intros row Hrow. cbv beta.
    apply zip_with_diag_ext.
    eapply Forall_impl; [exact Hrow|]. intros x Hx. cbv beta.
    apply square_sub_diag, Hx.
Qed.

(** An instance of C7 on two 1 x 2 images. *)
Lemma range_diff_symmetric_witness :
  Vis.range_diff 53 1024 [[f64 3; f64 0]] [[f64 1; f64 5]] = Ok [[f64 4; f64 25]]
  /\ Vis.range_diff 53 1024 [[f64 1; f64 5]] [[f64 3; f64 0]] = Ok [[f64 4; f64 25]]
  /\ Vis.range_diff 53 1024 [[f64 3; f64 0]] [[f64 3; f64 0]] = Ok [[f64 0; f64 0]].
Proof.
  destruct (range_diff_symmetric 53 1024 [[f64 3; f64 0]] [[f64 1; f64 5]])
    as (Hab & Hba & Haa).
  - repeat constructor.
  - split; [rewrite Hab; vm_compute; reflexivity|].
    split; [rewrite Hba, Hab; vm_compute; reflexivity|].
    rewrite Haa; [vm_compute; reflexivity|]. repeat constructor.
Defined.

(** C7 as stated fails where an image holds a value that is not finite:
    the difference of an infinity with itself is NaN, and so is its
    square, so two identical images do not give zero there. *)
Lemma range_diff_symmetric_counterexample :
  Vis.range_diff 53 1024 [[S754_infinity false]] [[S754_infinity false]]
  = Ok [[S754_nan]]
  /\ Vis.range_diff 53 1024 [[S754_nan]] [[S754_nan]] = Ok [[S754_nan]]
  /\ S754_nan <> S754_zero false.
Proof. repeat split. discriminate. Qed.

(** ** The difference images *)

Lemma map_is_fmap {A B} (f : A -> B) (l : list A) : map f l = f <$> l.
Proof. induction l as [|x l IH]; simpl; [reflexivity|]. rewrite IH. reflexivity. Qed.

Lemma zip_with_map_l {A A' B C} (f : A' -> B -> C) (g : A -> A') la lb :
  zip_with f (map g la) lb = zip_with (fun x => f (g x)) la lb.
Proof. rewrite map_is_fmap. apply zip_with_fmap_l. Qed.

Lemma same_shape_grid_map {A A' B} (g : A -> A') (a : grid A) (b : grid B) :
  same_shape a b -> same_shape (grid_map g a) b.
Proof.
  unfold same_shape, grid_map. induction 1 as [|r s a b Hrs _ IH]; simpl; constructor.
  - rewrite length_map. exact Hrs.
  - exact IH.
Qed.

Lemma zip_with_grid_map_l {A A' B C} (f : A' -> B -> C) (g : A -> A')
    (a : grid A) (b : grid B) :
  zip_with (zip_with f) (grid_map g a) b = zip_with (zip_with (fun x => f (g x))) a b.
Proof.
  unfold grid_map. rewrite zip_with_map_l.
  apply zip_with_ext; [|reflexivity..]. intros r s. apply zip_with_map_l.
Qed.

Lemma pixel_zip_with {A B C} (f : A -> B -> C) (a : grid A) (b : grid B) i j x y :
  pixel a i j = Some x -> pixel b i j = Some y ->
  pixel (zip_with (zip_with f) a b) i j = Some (f x y).
Proof.
  unfold pixel, grid in *. intros Ha Hb.
  destruct (a !! i) as [r|] eqn:Er; [|discriminate Ha].
  destruct (b !! i) as [s|] eqn:Es; [|discriminate Hb].
  simpl in Ha, Hb. rewrite lookup_zip_with, Er, Es. simpl.
  rewrite lookup_zip_with, Ha, Hb. reflexivity.
Qed.

Lemma store_labelled_twice tgt s1 s2 :
  Vis.store_labelled (Vis.store_labelled tgt s1) s2 = Vis.store_labelled tgt s2.
Proof.
  unfold Vis.store_labelled.
  destruct (String.eqb (adaption tgt) "cp") eqn:E; simpl; rewrite E; reflexivity.
Qed.

Lemma labelled_target_store tgt t t' :
  Vis.labelled_target tgt = Ok t ->
  Vis.labelled_target (Vis.store_labelled tgt t') = Ok t'.
Proof.
  unfold Vis.labelled_target, Vis.store_labelled. intros _.
  destruct (String.eqb (adaption tgt) "cp") eqn:E; simpl; rewrite E; reflexivity.
Qed.

(** What [set_diff] leaves of the target once both masks went through,
    however the rest of the call ends. *)
Lemma set_diff_target prec emax conv self src tgt t sl sm tl tm :
  show_diff self = true ->
  proj_color src = Some sl -> label_map src = Some sm ->
  Vis.labelled_target tgt = Ok t ->
  proj_color t = Some tl -> label_map t = Some tm ->
  same_shape sl tl -> same_shape sm tm ->
  snd (fst (Vis.set_diff prec emax conv self src tgt))
  = Vis.store_labelled tgt
      (with_label_map (with_proj_color t (masked_colors sl tl)) (masked_labels sm tm)).
Proof.
  intros Hshow Hsl Hsm Ht Htl Htm Hc Hm.
  unfold Vis.set_diff. rewrite Hshow. cbn [negb].
  unfold get_label_map. rewrite Hsl, Hsm, Ht.
  cbn [getattr mbind result_bind]. rewrite Htl, Htm.
  cbn [getattr mbind result_bind].
  rewrite mask_assign_same_shape by (apply same_shape_grid_map, Hc).
  rewrite mask_assign_same_shape by (apply same_shape_grid_map, Hm).
  unfold Vis.black_mask. rewrite !zip_with_grid_map_l.
  fold (masked_colors sl tl). fold (masked_labels sm tm).
  rewrite store_labelled_twice.
  repeat case_match; reflexivity.
Qed.

(** C9, as the code has it. With the difference panel on, and the label
    images and label maps of source and target of one shape, [set_diff]
    overwrites the label image of the target (of its merged scan under the
    adaption "cp") with black wherever the channels of the source sum to
    zero, and the label map with 0 wherever the label map of the source is
    0; so when the source is black at a pixel where that image is not, the
    target is not what it was before the call. *)
Theorem set_diff_writes_target (prec emax : Z)
    (conv : grid spec_float -> grid spec_float)
    (self : LaserScanVis) (src : LaserScan) (tgt : AdaptedScan) (t : LaserScan)
    (sl tl : grid rgb) (sm tm : grid Z) :
  show_diff self = true ->
  proj_color src = Some sl -> label_map src = Some sm ->
  Vis.labelled_target tgt = Ok t ->
  proj_color t = Some tl -> label_map t = Some tm ->
  same_shape sl tl -> same_shape sm tm ->
  let tgt' := snd (fst (Vis.set_diff prec emax conv self src tgt)) in
  (exists t', Vis.labelled_target tgt' = Ok t'
              /\ proj_color t' = Some (masked_colors sl tl)
              /\ label_map t' = Some (masked_labels sm tm))
  /\ (forall i j c x,
        pixel sl i j = Some c -> channel_sum c = 0 ->
        pixel tl i j = Some x -> x <> black_rgb ->
        pixel (masked_colors sl tl) i j = Some black_rgb /\ tgt' <> tgt).
Proof.
  intros Hshow Hsl Hsm Ht Htl Htm Hc Hm tgt'.
  assert (Etgt : tgt' = Vis.store_labelled tgt
            (with_label_map (with_proj_color t (masked_colors sl tl))
                            (masked_labels sm tm)))
    by (eapply set_diff_target; eassumption).
  split.
  - eexists. rewrite Etgt. split; [eapply labelled_target_store, Ht|].
    split; reflexivity.
  - intros i j c x Hpc Hsum Hpx Hx.
    assert (Hpix : pixel (masked_colors sl tl) i j = Some black_rgb).
    { unfold masked_colors. erewrite pixel_zip_with by eassumption.
      rewrite Hsum. reflexivity. }
    split; [exact Hpix|]. intros Heq.
    assert (Hsame : Vis.labelled_target tgt' = Ok t) by (rewrite Heq; exact Ht).
    rewrite Etgt in Hsame. erewrite labelled_target_store in Hsame by exact Ht.
    injection Hsame as Hsame.
    apply (f_equal proj_color) in Hsame. simpl in Hsame. rewrite Htl in Hsame.
    injection Hsame as Hsame. rewrite Hsame, Hpx in Hpix.
    injection Hpix as Hpix. exact (Hx Hpix).
Qed.

(** An instance of C9: the one-pixel source and target of the examples. *)
Lemma set_diff_writes_target_witness :
  let tgt' := snd (fst (Vis.set_diff 53 1024 id diff_vis demo_source demo_target)) in
  (exists t', Vis.labelled_target tgt' = Ok t'
              /\ proj_color t' = Some (masked_colors [[black_rgb]] [[(245, 150, 100)]])
              /\ label_map t' = Some (masked_labels [[0]] [[10]]))
  /\ (forall i j c x,
        pixel [[black_rgb]] i j = Some c -> channel_sum c = 0 ->
        pixel [[(245, 150, 100)]] i j = Some x -> x <> black_rgb ->
        pixel (masked_colors [[black_rgb]] [[(245, 150, 100)]]) i j = Some black_rgb
        /\ tgt' <> demo_target).
Proof.
  apply (set_diff_writes_target 53 1024 id diff_vis demo_source demo_target
           (scan_of demo_target));
    try reflexivity; repeat constructor.
Defined.

(** C9 as stated fails: with the difference panel off, as [visualize.py]
    builds the viewer, [set_diff] returns at once and the target is what
    it was, although the source is black where the target is not; and with
    the panel on, the label map is masked by the label map of the source,
    not by its black pixels. *)
Lemma set_diff_writes_target_counterexample :
  show_diff demo_vis = false
  /\ pixel [[black_rgb]] 0 0 = Some black_rgb
  /\ proj_color (scan_of demo_target) = Some [[(245, 150, 100)]]
  /\ Vis.set_diff 53 1024 id demo_vis demo_source demo_target
     = (demo_vis, demo_target, None)
  /\ label_map
       (scan_of (snd (fst (Vis.set_diff 53 1024 id diff_vis
                             (with_label_map demo_source [[3]]) demo_target))))
     = Some [[10]].
Proof. repeat split. Qed.

(** The label half of the masking: where the source is black, the masked
    target is black, and the label difference of the two is black. *)
Lemma label_diff_black_pixel dt (sl tl : grid rgb) i j c x :
  pixel sl i j = Some c -> pixel tl i j = Some x ->
  c = black_rgb ->
  pixel (masked_colors sl tl) i j = Some black_rgb
  /\ rgb_abs_sub dt c black_rgb = black_rgb.
Proof.
  intros Hc Hx ->. split; [|destruct dt; reflexivity].
  unfold masked_colors. erewrite pixel_zip_with by eassumption. reflexivity.
Qed.

(** C1 at a failing input. The source holds no data at its only pixel
    (black, label 0, range 0), the target has a point at range 5 there.
    The label image of the target is masked, so the label difference shown
    is black; the range of the target is not (the assignment is commented
    out), and the range difference shown is 25. *)
Theorem set_diff_range_not_masked :
  let '(vis, target, raised) :=
    Vis.set_diff 53 1024 id diff_vis demo_source demo_target in
  raised = None
  /\ pixel (proj_range demo_source) 0 0 = Some (S754_zero false)
  /\ diff_image_label (panels vis) = Some [[black_rgb]]
  /\ proj_range (scan_of target) = [[f64 5]]
  /\ diff_image_depth (panels vis) = Some [[f64 25]]
  /\ f64 25 <> S754_zero false.
Proof. vm_compute. repeat split. discriminate. Qed.

(** ** Colours from ranges *)

Section ColorFacts.
Variables prec emax : Z.

Lemma astype_uint8_bounds undef x :
  0 <= Np.astype_uint8 undef x < 256.
Proof.
  unfold Np.astype_uint8.
  destruct (Np.is_finite x); cbn [andb]; [|apply Z.mod_pos_bound; lia].
  destruct (Z.leb_spec 0 (Np.trunc x)); cbn [andb]; [|apply Z.mod_pos_bound; lia].
  destruct (Z.ltb_spec (Np.trunc x) 256); [lia|apply Z.mod_pos_bound; lia].
Qed.

Lemma minimum_diag v : Np.minimum v v = v.
Proof. unfold Np.minimum. repeat case_match; reflexivity. Qed.

Lemma maximum_diag v : Np.maximum v v = v.
Proof. unfold Np.maximum. repeat case_match; reflexivity. Qed.

Lemma fold_left_diag (op : spec_float -> spec_float -> spec_float) v n :
  op v v = v -> fold_left op (replicate n v) v = v.
Proof. intros Hop. induction n as [|n IH]; simpl; [reflexivity|]. rewrite Hop. exact IH. Qed.

(** Zero over zero: the scaled value of a point of an all-equal frame. *)
Lemma scale_degenerate v c :
  Np.mul prec emax
    (Np.div prec emax (Np.sub prec emax v v) (Np.sub prec emax v v)) c
  = S754_nan.
Proof.
  destruct v as [s|s| |s m e].
  - destruct s; reflexivity.
  - destruct s; reflexivity.
  - reflexivity.
  - rewrite sub_diag by reflexivity. reflexivity.
Qed.

Lemma amin_all_equal v n : Np.amin (replicate (S n) v) = Ok v.
Proof. simpl. rewrite fold_left_diag by apply minimum_diag. reflexivity. Qed.

Lemma amax_all_equal v n : Np.amax (replicate (S n) v) = Ok v.
Proof. simpl. rewrite fold_left_diag by apply maximum_diag. reflexivity. Qed.

Lemma min_max_scale_all_equal v n :
  Vis.min_max_scale prec emax (replicate (S n) v) = Ok (replicate (S n) S754_nan).
Proof.
  unfold Vis.min_max_scale. rewrite amin_all_equal, amax_all_equal.
  cbn [mbind result_bind]. f_equal.
  generalize (S n) as k. intros k.
  induction k as [|k IH]; simpl; [reflexivity|].
  rewrite scale_degenerate. f_equal. exact IH.
Qed.

Lemma min_max_scale_nonempty range_data :
  range_data <> [] ->
  exists scaled, Vis.min_max_scale prec emax range_data = Ok scaled
                 /\ length scaled = length range_data.
Proof.
  intros Hne. destruct range_data as [|x xs]; [contradiction|].
  unfold Vis.min_max_scale, Np.amin, Np.amax. cbn [mbind result_bind].
  eexists. split; [reflexivity|]. apply length_map.
Qed.

Lemma take_rows_in_range table index :
  Forall (fun i => 0 <= i < Z.of_nat (length table)) index ->
  exists rows, Vis.take_rows table index = Ok rows
               /\ length rows = length index
               /\ Forall (fun c => c ∈ table) rows.
Proof.
  unfold Vis.take_rows.
  induction 1 as [|i index Hi _ (rows & Hrows & Hlen & Hin)]; simpl.
  - exists []. repeat split. constructor.
  - destruct (lookup_lt_is_Some_2 table (Z.to_nat i)) as [c Hc]; [lia|].
    rewrite Hc, Hrows. exists (c :: rows). simpl. repeat split.
    + rewrite Hlen. reflexivity.
    + constructor; [|exact Hin]. eapply list_elem_of_lookup_2, Hc.
Qed.

Lemma power_remap_replicate fpow power x n :
  Vis.power_remap prec emax fpow power (replicate n x)
  = replicate n (fpow x (Np.div prec emax (Np.of_Z prec emax 1) (Np.of_Z prec emax power))).
Proof.
  unfold Vis.power_remap. induction n as [|n IH]; cbn [replicate map]; [reflexivity|].
  rewrite IH. reflexivity.
Qed.

Lemma valid_rgb8_reverse c : valid_rgb8 c -> valid_rgb8 (reverse_channels c).
Proof. destruct c as [[r g] b]. unfold valid_rgb8, reverse_channels. tauto. Qed.
End ColorFacts.

Lemma take_rows_replicate table i c k :
  table !! Z.to_nat i = Some c ->
  Vis.take_rows table (replicate k i) = Ok (replicate k c).
Proof.
  intros Hc. unfold Vis.take_rows.
  induction k as [|k IH]; simpl; [reflexivity|]. rewrite Hc, IH. reflexivity.
Qed.

Lemma map_replicate {A B} (f : A -> B) x n : map f (replicate n x) = replicate n (f x).
Proof. induction n as [|n IH]; simpl; [reflexivity|]. rewrite IH. reflexivity. Qed.

(** C4, as the code has it. For a frame with at least one point the range
    colouring yields one colour per point, each a row of the 256-row
    colour map looked up at a [uint8] index, so a valid 8-bit triple
    whenever the rows of the map are. Nothing guards the scaling: on a
    frame whose ranges are all equal (all zero, say) every scaled value is
    zero over zero, NaN, and the colour shown is the row the platform's
    cast of NaN to [uint8] happens to select. *)
Theorem range_colors_valid (prec emax : Z)
    (fpow : spec_float -> spec_float -> spec_float) (undef : spec_float -> Z)
    (get_mpl_colormap : string -> list rgb) (unproj_range : list spec_float) :
  unproj_range <> [] ->
  length (get_mpl_colormap "viridis") = 256%nat ->
  Forall valid_rgb8 (get_mpl_colormap "viridis") ->
  (exists colors,
      Vis.range_colors prec emax fpow undef get_mpl_colormap unproj_range = Ok colors
      /\ length colors = length unproj_range
      /\ Forall valid_rgb8 colors)
  /\ (forall x n, unproj_range = replicate (S n) x ->
        Vis.min_max_scale prec emax (Vis.power_remap prec emax fpow 16 unproj_range)
        = Ok (replicate (S n) S754_nan)
        /\ exists c,
            get_mpl_colormap "viridis" !! Z.to_nat (undef S754_nan mod 256) = Some c
            /\ Vis.range_colors prec emax fpow undef get_mpl_colormap unproj_range
               = Ok (replicate (S n) (reverse_channels c))).
Proof.
  intros Hne Hlen Hvalid. split.
  - unfold Vis.range_colors. cbv zeta.
    destruct (min_max_scale_nonempty prec emax
                (Vis.power_remap prec emax fpow 16 unproj_range))
      as (scaled & Hscaled & Hlscaled).
    { unfold Vis.power_remap. destruct unproj_range; [contradiction|discriminate]. }
    rewrite Hscaled. cbn [mbind result_bind].
    destruct (take_rows_in_range (get_mpl_colormap "viridis")
                (map (Np.astype_uint8 undef) scaled))
      as (rows & Hrows & Hlrows & Hin).
    { rewrite Hlen. apply Forall_forall. intros i Hi.
      apply list_elem_of_In, in_map_iff in Hi as (x & <- & _).
      pose proof (astype_uint8_bounds undef x). lia. }
    rewrite Hrows. cbn [mbind result_bind].
    eexists. split; [reflexivity|]. split.
    + rewrite length_map, Hlrows, length_map, Hlscaled.
      unfold Vis.power_remap. apply length_map.
    + apply Forall_forall. intros c Hc.
      apply list_elem_of_In, in_map_iff in Hc as (c' & <- & Hc').
      apply valid_rgb8_reverse.
      rewrite Forall_forall in Hin, Hvalid.
      apply Hvalid, Hin, list_elem_of_In, Hc'.
  - intros x n ->.
    rewrite power_remap_replicate, min_max_scale_all_equal.
    split; [reflexivity|].
    destruct (lookup_lt_is_Some_2 (get_mpl_colormap "viridis")
                (Z.to_nat (undef S754_nan mod 256))) as [c Hc].
    { rewrite Hlen. pose proof (Z.mod_pos_bound (undef S754_nan) 256). lia. }
    exists c. split; [exact Hc|].
    unfold Vis.range_colors. cbv zeta.
    rewrite power_remap_replicate, min_max_scale_all_equal.
    cbn [mbind result_bind]. rewrite map_replicate.
    change (Np.astype_uint8 undef S754_nan) with (undef S754_nan mod 256).
    rewrite (take_rows_replicate _ _ c) by exact Hc.
    cbn [mbind result_bind]. rewrite map_replicate. reflexivity.
Qed.

(** An instance of C4: two points, at ranges 1 and 65536. *)
Lemma range_colors_valid_witness :
  (exists colors,
      Vis.range_colors 53 1024 root16 (fun _ => 0) gray_map [f64 1; f64 65536]
      = Ok colors
      /\ length colors = 2%nat
      /\ Forall valid_rgb8 colors)
  /\ Vis.range_colors 53 1024 root16 (fun _ => 0) gray_map [f64 1; f64 65536]
     = Ok [(0, 0, 0); (255, 255, 255)].
Proof.
  destruct (range_colors_valid 53 1024 root16 (fun _ => 0) gray_map
              [f64 1; f64 65536]) as [H _].
  - discriminate.
  - reflexivity.
  - apply (bool_decide_unpack _). vm_compute. reflexivity.
  - split; [exact H|]. vm_compute. reflexivity.
Defined.

(** C4 as stated fails: nothing guards the degenerate frames. Whatever the
    power function, an all-zero frame and an all-equal frame scale to NaN
    at every point, and the colour shown then follows the cast of NaN:
    row 0 where that cast gives 0, row 128 where it gives 128. *)
Lemma range_colors_unguarded_counterexample :
  (forall fpow,
      Vis.min_max_scale 53 1024
        (Vis.power_remap 53 1024 fpow 16 [f64 0; f64 0; f64 0])
      = Ok [S754_nan; S754_nan; S754_nan])
  /\ (forall fpow,
        Vis.min_max_scale 53 1024 (Vis.power_remap 53 1024 fpow 16 [f64 7; f64 7])
        = Ok [S754_nan; S754_nan])
  /\ Vis.range_colors 53 1024 root16 (fun _ => 0) gray_map [f64 0; f64 0; f64 0]
     = Ok [(0, 0, 0); (0, 0, 0); (0, 0, 0)]
  /\ Vis.range_colors 53 1024 root16 (fun _ => 128) gray_map [f64 0; f64 0; f64 0]
     = Ok [(128, 128, 128); (128, 128, 128); (128, 128, 128)].
Proof.
  split; [|split; [|split; vm_compute; reflexivity]]; intros fpow.
  - change [f64 0; f64 0; f64 0] with (replicate 3 (f64 0)).
    rewrite power_remap_replicate. apply min_max_scale_all_equal.
  - change [f64 7; f64 7] with (replicate 2 (f64 7)).
    rewrite power_remap_replicate. apply min_max_scale_all_equal.
Qed.

(** ** Poses *)

Section PosesFacts.
Context {F : Type}.
Variables f0 f1 : F.
Variables fadd fmul : F -> F -> F.
Variable linalg_inv : grid F -> option (grid F).

Lemma assign_row_four (m : grid F) i vals :
  length vals = 4%nat -> assign_row m i vals = Ok (<[i := vals]> m).
Proof.
  intros Hl. unfold assign_row.
  destruct vals as [|a [|b vals]]; try discriminate Hl.
  rewrite Hl. reflexivity.
Qed.

Lemma cur_pose_twelve values :
  length values = 12%nat -> cur_pose f0 f1 values = Ok (pose_matrix f0 f1 values).
Proof.
  intros Hl. unfold cur_pose, slice.
  rewrite assign_row_four by (rewrite length_take, length_drop; lia).
  cbn [mbind result_bind].
  rewrite assign_row_four by (rewrite length_take, length_drop; lia).
  cbn [mbind result_bind].
  rewrite assign_row_four by (rewrite length_take, length_drop; lia).
  reflexivity.
Qed.

Lemma pose_matrix_4x4 values :
  length values = 12%nat -> is_4x4 (pose_matrix f0 f1 values).
Proof.
  intros Hl. split; [reflexivity|].
  repeat constructor; rewrite length_take, ?length_drop; lia.
Qed.

Lemma matmul_4x4 (a b : grid F) :
  is_4x4 a -> is_4x4 b ->
  matmul f0 fadd fmul a b = Ok (mat_product f0 fadd fmul a b)
  /\ is_4x4 (mat_product f0 fadd fmul a b).
Proof.
  intros [Ha Hra] [Hb Hrb].
  assert (Hn : ncols b = 4%nat).
  { destruct b as [|r b]; [discriminate Hb|]. inversion Hrb; assumption. }
  split.
  - unfold matmul.
    replace (forallb (fun row => Nat.eqb (length row) (length b)) a) with true.
    + replace (forallb (fun row => Nat.eqb (length row) (ncols b)) b) with true;
        [reflexivity|].
      symmetry. apply forallb_forall. intros r Hr. apply Nat.eqb_eq.
      rewrite Hn. rewrite Forall_forall in Hrb. apply Hrb, list_elem_of_In, Hr.
    + symmetry. apply forallb_forall. intros r Hr. apply Nat.eqb_eq.
      rewrite Hb. rewrite Forall_forall in Hra. apply Hra, list_elem_of_In, Hr.
  - unfold mat_product. split; [rewrite length_map; exact Ha|].
    apply Forall_forall. intros r Hr.
    apply list_elem_of_In, in_map_iff in Hr as (row & <- & _).
    rewrite length_map, length_seq. exact Hn.
Qed.

Lemma read_poses_lines Tr Tr_inv file : forall poses,
  is_4x4 Tr -> is_4x4 Tr_inv ->
  Forall (fun values => length values = 12%nat) file ->
  read_poses f0 f1 fadd fmul Tr Tr_inv file poses
  = Ok (poses ++ map (corrected f0 f1 fadd fmul Tr Tr_inv) file)%list.
Proof.
  intros poses HTr HTi Hfile. revert poses.
  induction Hfile as [|values file Hv _ IH]; intros poses; simpl.
  - rewrite app_nil_r. reflexivity.
  - rewrite cur_pose_twelve by exact Hv. cbn [mbind result_bind].
    destruct (matmul_4x4 (pose_matrix f0 f1 values) Tr) as [-> H1];
      [apply pose_matrix_4x4, Hv|exact HTr|].
    cbn [mbind result_bind].
    destruct (matmul_4x4 Tr_inv _ HTi H1) as [-> _].
    cbn [mbind result_bind]. rewrite IH, <- app_assoc. reflexivity.
Qed.
End PosesFacts.

(** C6. For a calibration that holds a 4 x 4 matrix [Tr] with inverse
    [Tr_inv], and a poses file whose lines hold twelve floats each,
    [parse_poses] returns one pose per line, in the order of the file: the
    4 x 4 matrix whose first three rows are the twelve floats in row order
    and whose last row is (0, 0, 0, 1), multiplied by [Tr] on the right and
    by [Tr_inv] on the left. *)
Theorem parse_poses_corrected {F : Type} (f0 f1 : F) (fadd fmul : F -> F -> F)
    (linalg_inv : grid F -> option (grid F))
    (file : list (list F)) (calibration : gmap string (grid F))
    (Tr Tr_inv : grid F) :
  calibration !! "Tr" = Some Tr ->
  linalg_inv Tr = Some Tr_inv ->
  is_4x4 Tr -> is_4x4 Tr_inv ->
  Forall (fun values => length values = 12%nat) file ->
  parse_poses f0 f1 fadd fmul linalg_inv file calibration
  = Ok (map (fun values =>
               mat_product f0 fadd fmul Tr_inv
                 (mat_product f0 fadd fmul (pose_matrix f0 f1 values) Tr))
            file)
  /\ Forall (fun values =>
               cur_pose f0 f1 values = Ok (pose_matrix f0 f1 values)
               /\ matmul f0 fadd fmul (pose_matrix f0 f1 values) Tr
                  = Ok (mat_product f0 fadd fmul (pose_matrix f0 f1 values) Tr)
               /\ matmul f0 fadd fmul Tr_inv
                    (mat_product f0 fadd fmul (pose_matrix f0 f1 values) Tr)
                  = Ok (corrected f0 f1 fadd fmul Tr Tr_inv values))
            file
  /\ (forall a b c d e f g h i j k l : F,
        pose_matrix f0 f1 [a; b; c; d; e; f; g; h; i; j; k; l]
        = [[a; b; c; d]; [e; f; g; h]; [i; j; k; l]; [f0; f0; f0; f1]]).
Proof.
  intros HTr Hinv H4 H4i Hfile. split; [|split].
  - unfold parse_poses. rewrite HTr. cbn [mbind result_bind].
    rewrite Hinv. cbn [mbind result_bind].
    rewrite (read_poses_lines f0 f1 fadd fmul Tr Tr_inv file []) by assumption.
    reflexivity.
  - eapply Forall_impl; [exact Hfile|]. intros values Hv. cbv beta.
    split; [apply cur_pose_twelve, Hv|].
    destruct (matmul_4x4 f0 fadd fmul (pose_matrix f0 f1 values) Tr) as [E1 H1];
      [apply pose_matrix_4x4, Hv|exact H4|].
    split; [exact E1|].
    destruct (matmul_4x4 f0 fadd fmul Tr_inv _ H4i H1) as [E2 _]. exact E2.
  - reflexivity.
Qed.

(** An instance of C6 over the integers: one line, the calibration a shift. *)
Lemma parse_poses_corrected_witness :
  parse_poses 0 1 Z.add Z.mul demo_inv
    [[1; 2; 3; 4; 5; 6; 7; 8; 9; 10; 11; 12]] demo_calibration
  = Ok [[[1; 2; 3; 4]; [5; 6; 7; 18]; [9; 10; 11; 30]; [0; 0; 0; 1]]].
Proof.
  destruct (parse_poses_corrected 0 1 Z.add Z.mul demo_inv
              [[1; 2; 3; 4; 5; 6; 7; 8; 9; 10; 11; 12]] demo_calibration
              demo_Tr demo_Tr_inv) as [H _].
  - reflexivity.
  - reflexivity.
  - split; [reflexivity|repeat constructor].
  - split; [reflexivity|repeat constructor].
  - repeat constructor.
  - rewrite H. vm_compute. reflexivity.
Defined.

(** * Further properties *)

(** ** The pending action is a single slot *)

Lemma key_press_action vis key :
  action (Vis.key_press vis key) = default (action vis) (key_action key).
Proof.
  unfold Vis.key_press, key_action.
  repeat match goal with
  | |- context [String.eqb key ?k] => destruct (String.eqb key k)
  end; reflexivity.
Qed.

Lemma key_press_mode vis key :
  view_mode (Vis.key_press vis key) = default (view_mode vis) (key_mode key).
Proof.
  unfold Vis.key_press, key_mode.
  destruct (String.eqb_spec key "N") as [->|_]; [reflexivity|].
  destruct (String.eqb_spec key "B") as [->|_]; [reflexivity|].
  destruct (String.eqb_spec key "Q") as [->|_]; [reflexivity|].
  destruct (String.eqb_spec key "Escape") as [->|_]; [reflexivity|].
  cbn [orb].
  repeat match goal with
  | |- context [String.eqb key ?k] => destruct (String.eqb key k)
  end; reflexivity.
Qed.

Lemma default_last {A} (d x : A) (l : list A) :
  default (default d (Some x)) (last l) = default d (last (x :: l)).
Proof.
  destruct l as [|y l]; [reflexivity|].
  change (last (x :: y :: l)) with (last (y :: l)).
  destruct (last (y :: l)) eqn:E; [reflexivity|].
  apply last_None in E. discriminate E.
Qed.

Lemma fold_key_press_last {A} (get : LaserScanVis -> A) (of_key : string -> option A) :
  (forall vis key, get (Vis.key_press vis key) = default (get vis) (of_key key)) ->
  forall pressed vis,
    get (fold_left Vis.key_press pressed vis)
    = default (get vis) (last (omap of_key pressed)).
Proof.
  intros Hstep. induction pressed as [|k ks IH]; intros vis; [reflexivity|].
  cbn [fold_left]. rewrite IH, Hstep. cbn [omap list_omap].
  destruct (of_key k) as [a|]; [|reflexivity].
  apply default_last.
Qed.

(** X1. The pending action is one slot, overwritten by every bound key:
    [get_action] returns the action of the last bound key pressed during
    its sleep, whatever was pending or pressed before, and the pending one
    when no bound key was pressed; the display mode is likewise that of
    the last of the keys 1, 2, 3. *)
Theorem get_action_last_key (vis : LaserScanVis) (timeout : spec_float)
    (pressed : list string) :
  fst (Vis.get_action timeout pressed vis)
  = default (action vis) (last (omap key_action pressed))
  /\ view_mode (snd (Vis.get_action timeout pressed vis))
     = default (view_mode vis) (last (omap key_mode pressed)).
Proof.
  unfold Vis.get_action, Vis.sleep. cbn [fst snd]. split.
  - exact (fold_key_press_last action key_action key_press_action pressed
             (Vis.call [AppSleep timeout] vis)).
  - exact (fold_key_press_last view_mode key_mode key_press_mode pressed
             (Vis.call [AppSleep timeout] vis)).
Qed.

(** ** The trace only grows, and a quit key always reaches the toolkit *)

Lemma key_press_gui vis key :
  exists cs, gui (Vis.key_press vis key) = (gui vis ++ cs)%list
             /\ (key = "Q" \/ key = "Escape" -> AppQuit ∈ cs).
Proof.
  unfold Vis.key_press.
  destruct (String.eqb_spec key "N") as [->|_];
    [exists []; split; [symmetry; apply app_nil_r|intros [?|?]; discriminate]|].
  destruct (String.eqb_spec key "B") as [->|_];
    [exists []; split; [symmetry; apply app_nil_r|intros [?|?]; discriminate]|].
  destruct (String.eqb_spec key "Q") as [->|HQ]; cbn [orb].
  { eexists. split; [reflexivity|]. intros _. set_solver. }
  destruct (String.eqb_spec key "Escape") as [->|HE].
  { eexists. split; [reflexivity|]. intros _. set_solver. }
  exists []. split; [|intros [?|?]; contradiction].
  repeat match goal with
  | |- context [String.eqb key ?k] => destruct (String.eqb key k)
  end; symmetry; apply app_nil_r.
Qed.

Lemma fold_key_press_gui pressed : forall vis,
  exists cs, gui (fold_left Vis.key_press pressed vis) = (gui vis ++ cs)%list
             /\ ("Q" ∈ pressed \/ "Escape" ∈ pressed -> AppQuit ∈ cs).
Proof.
  induction pressed as [|k ks IH]; intros vis.
  - exists []. split; [symmetry; apply app_nil_r|]. intros [H|H]; inversion H.
  - cbn [fold_left].
    destruct (key_press_gui vis k) as (c1 & E1 & Q1).
    destruct (IH (Vis.key_press vis k)) as (c2 & E2 & Q2).
    exists (c1 ++ c2)%list. split; [rewrite E2, E1, app_assoc; reflexivity|].
    intros H. apply elem_of_app.
    destruct H as [H|H]; apply elem_of_cons in H as [<-|H]; auto.
Qed.

(** X2. Whatever keys arrive during a [get_action], the toolkit trace is
    only extended (by the sleep, then by what the keys cause), and when Q
    or Escape is among them the application has been told to quit, even
    if a later key has replaced the action "quit" by another. *)
Theorem get_action_trace (vis : LaserScanVis) (timeout : spec_float)
    (pressed : list string) :
  exists cs,
    gui (snd (Vis.get_action timeout pressed vis))
    = (gui vis ++ AppSleep timeout :: cs)%list
    /\ ("Q" ∈ pressed \/ "Escape" ∈ pressed -> AppQuit ∈ cs)
    /\ fst (Vis.get_action timeout (pressed ++ ["N"]) vis) = "next".
Proof.
  unfold Vis.get_action, Vis.sleep. cbn [fst snd].
  destruct (fold_key_press_gui pressed (Vis.call [AppSleep timeout] vis))
    as (cs & E & Q).
  exists cs. split; [|split; [exact Q|]].
  - change (gui (Vis.with_action "no" ?v)) with (gui v). rewrite E.
    cbn [Vis.call gui]. rewrite <- app_assoc. reflexivity.
  - rewrite fold_left_app. cbn [fold_left]. reflexivity.
Qed.

(** An instance of X2: Q, then N, within one sleep. *)
Lemma get_action_trace_witness :
  fst (Vis.get_action poll_interval ["Q"; "N"] demo_vis) = "next"
  /\ AppQuit ∈ gui (snd (Vis.get_action poll_interval ["Q"; "N"] demo_vis)).
Proof.
  destruct (get_action_trace demo_vis poll_interval ["Q"; "N"]) as (cs & E & Q & _).
  split; [reflexivity|].
  rewrite E. apply elem_of_app. right. apply list_elem_of_further.
  apply Q. left. apply list_elem_of_here.
Defined.

(** ** The navigation step keeps the index in range *)

Section LoopFacts.
Import Visualize.

Lemma nav_cases n idx choice :
  nav n idx choice
  = if String.eqb choice "next" then
      if n - 1 =? 0 then Raise ZeroDivisionError
      else Ok (Some ((idx + 1) mod (n - 1)))
    else if String.eqb choice "back" then
      Ok (Some (if idx - 1 <? 0 then n - 1 else idx - 1))
    else Ok None.
Proof. reflexivity. Qed.

End LoopFacts.

(** X3. With at least two scans, from any index that [scan_names]
    accepts (from [-n] to [n - 1]) and for any choice, the navigation
    step that ends an iteration does not raise: it either ends the loop
    or hands on an index between 0 and [n - 1], one that [scan_names] and
    [label_names] accept at the head of the next iteration. *)
Theorem nav_keeps_index (n idx : Z) (choice : string) :
  2 <= n -> - n <= idx < n ->
  nav n idx choice = Ok None
  \/ exists idx', nav n idx choice = Ok (Some idx') /\ 0 <= idx' < n.
Proof.
  intros Hn Hi. rewrite nav_cases.
  destruct (String.eqb choice "next").
  - destruct (Z.eqb_spec (n - 1) 0); [lia|]. right. eexists. split; [reflexivity|].
    pose proof (Z.mod_pos_bound (idx + 1) (n - 1)). lia.
  - destruct (String.eqb choice "back"); [|left; reflexivity].
    right. eexists. split; [reflexivity|].
    destruct (Z.ltb_spec (idx - 1) 0); lia.
Qed.

(** An instance of X3: four scans, "back" from the index -1. *)
Lemma nav_keeps_index_witness :
  nav 4 (-1) "back" = Ok None
  \/ exists idx', nav 4 (-1) "back" = Ok (Some idx') /\ 0 <= idx' < 4.
Proof. apply nav_keeps_index; lia. Defined.

(** X4. With a single scan the modulus of "next" is zero: whenever a poll
    returns "next", the loop ends in a [ZeroDivisionError], from any index
    and whatever follows. *)
Theorem single_scan_next_crashes (idx : Z) (vis : LaserScanVis)
    (pressed : list string) (polls : list (list string)) :
  fst (Vis.get_action poll_interval pressed vis) = "next" ->
  viewing_loop 1 idx vis (pressed :: polls) = Crashed ZeroDivisionError.
Proof.
  intros Hnext. cbn [viewing_loop].
  destruct (Vis.get_action poll_interval pressed vis) as [choice vis'].
  cbn [fst] in Hnext. subst choice. reflexivity.
Qed.

(** An instance of X4: the key N on a data set of one scan. *)
Lemma single_scan_next_crashes_witness :
  viewing_loop 1 0 demo_vis [["N"]; ["B"]] = Crashed ZeroDivisionError.
Proof. apply single_scan_next_crashes. reflexivity. Defined.

(** X5. Only "next" and "back" keep the loop going: a poll during which
    one of the keys 1, 2, 3, Q, Escape was the only one pressed ends the
    loop at the current frame, the polls that would follow unused. So
    switching the display mode ends the viewing loop just as quitting
    does. *)
Theorem mode_key_leaves_loop (n idx : Z) (vis : LaserScanVis) (key : string)
    (polls : list (list string)) :
  key ∈ ["1"; "2"; "3"; "Q"; "Escape"] ->
  viewing_loop n idx vis ([key] :: polls)
  = Visualize.Left idx (snd (Vis.get_action poll_interval [key] vis)).
Proof.
  intros Hk.
  repeat (apply elem_of_cons in Hk as [->|Hk]; [reflexivity|]).
  apply elem_of_nil in Hk. contradiction.
Qed.

(** An instance of X5: the key 2 with further keys waiting. *)
Lemma mode_key_leaves_loop_witness :
  run_index (viewing_loop 5 3 demo_vis [["2"]; ["N"]; ["N"]]) = Some 3
  /\ exists vis', viewing_loop 5 3 demo_vis [["2"]; ["N"]; ["N"]]
                  = Visualize.Left 3 vis'
                  /\ view_mode vis' = "range".
Proof.
  rewrite (mode_key_leaves_loop 5 3 demo_vis "2" [["N"]; ["N"]])
    by (apply list_elem_of_further, list_elem_of_here).
  split; [reflexivity|]. eexists. split; reflexivity.
Defined.

(** X6. "next" never shows the last scan: for two scans or more it leads
    to a frame between 0 and [n - 2], from any index; "back" from frame 0
    leads to the last scan, [n - 1], and from a later frame to the one
    before. *)
Theorem next_skips_last_scan (n idx : Z) :
  2 <= n ->
  (exists idx', nav n idx "next" = Ok (Some idx') /\ 0 <= idx' <= n - 2)
  /\ nav n 0 "back" = Ok (Some (n - 1))
  /\ (1 <= idx -> nav n idx "back" = Ok (Some (idx - 1))).
Proof.
  intros Hn. split; [|split].
  - rewrite nav_next by lia. eexists. split; [reflexivity|].
    pose proof (Z.mod_pos_bound (idx + 1) (n - 1)). lia.
  - reflexivity.
  - intros Hi. rewrite nav_back.
    destruct (Z.ltb_spec (idx - 1) 0); [lia|reflexivity].
Qed.

(** An instance of X6: five scans. *)
Lemma next_skips_last_scan_witness :
  nav 5 3 "next" = Ok (Some 0) /\ nav 5 0 "back" = Ok (Some 4).
Proof.
  destruct (next_skips_last_scan 5 3) as (_ & Hb & _); [lia|].
  split; [reflexivity|exact Hb].
Defined.

(** X7. Away from the ends "next" and "back" undo each other: from a frame
    between 0 and [n - 3], next then back returns to it, and from a frame
    between 1 and [n - 2], back then next does. At frame 0 they do not:
    back leads to the last scan and next from there to frame 1 (for four
    scans or more). *)
Theorem next_back_inverse (n idx : Z) :
  (0 <= idx <= n - 3 ->
   (idx' ← nav n idx "next"; nav n (default idx idx') "back") = Ok (Some idx))
  /\ (1 <= idx <= n - 2 ->
      (idx' ← nav n idx "back"; nav n (default idx idx') "next") = Ok (Some idx))
  /\ (4 <= n ->
      (idx' ← nav n 0 "back"; nav n (default 0 idx') "next") = Ok (Some 1)).
Proof.
  split; [|split].
  - intros Hi. rewrite nav_next by lia. cbn [mbind result_bind from_option id].
    rewrite Z.mod_small by lia. rewrite nav_back.
    destruct (Z.ltb_spec (idx + 1 - 1) 0); [lia|]. do 2 f_equal. lia.
  - intros Hi. rewrite nav_back.
    destruct (Z.ltb_spec (idx - 1) 0); [lia|]. cbn [mbind result_bind from_option id].
    rewrite nav_next by lia. do 2 f_equal.
    replace (idx - 1 + 1) with idx by lia. apply Z.mod_small. lia.
  - intros Hn. rewrite nav_back. cbn [mbind result_bind from_option id Z.ltb Z.sub Z.add Z.opp Z.compare Z.pos_sub].
    rewrite nav_next by lia. do 2 f_equal.
    change (0 - 1 <? 0) with true. cbv iota.
    replace (n - 1 + 1) with (1 + 1 * (n - 1)) by lia.
    rewrite Z.mod_add by lia. apply Z.mod_small. lia.
Qed.

(** An instance of X7: six scans, frame 2. *)
Lemma next_back_inverse_witness :
  (idx' ← nav 6 2 "next"; nav 6 (default 2 idx') "back") = Ok (Some 2)
  /\ (idx' ← nav 6 2 "back"; nav 6 (default 2 idx') "next") = Ok (Some 2).
Proof.
  destruct (next_back_inverse 6 2) as (H1 & H2 & _).
  split; [apply H1; lia|apply H2; lia].
Defined.

(** ** Lines of poses and of calibration *)

Section LineFacts.
Context {F : Type}.
Variables f0 f1 : F.

Lemma cur_pose_long (values : list F) :
  (12 <= length values)%nat -> cur_pose f0 f1 values = Ok (pose_matrix f0 f1 values).
Proof.
  intros Hl.
  do 12 (destruct values as [|? values]; [simpl in Hl; lia|]).
  reflexivity.
Qed.

Lemma cur_pose_cases (values : list F) :
  (accepted_length (length values) /\ exists m, cur_pose f0 f1 values = Ok m /\ is_4x4 m)
  \/ (~ accepted_length (length values) /\ cur_pose f0 f1 values = Raise ValueError).
Proof.
  unfold accepted_length.
  do 12 (destruct values as [|? values];
         [first [ right; split; [simpl; lia|reflexivity]
                | left; split; [simpl; lia|];
                  eexists; split; [reflexivity|split; [reflexivity|repeat constructor]] ]|]).
  left. split; [simpl; lia|].
  eexists. split; [reflexivity|]. split; [reflexivity|repeat constructor].
Qed.

Lemma pose_matrix_take (values : list F) :
  pose_matrix f0 f1 (take 12 values) = pose_matrix f0 f1 values.
Proof.
  unfold pose_matrix.
  do 12 (destruct values as [|? values]; [reflexivity|]). reflexivity.
Qed.
End LineFacts.

(** X8. The statements that fill a pose from a line take exactly the
    lines of nine values and those of twelve or more: a single value left
    for a row is broadcast over it, values beyond the twelfth are ignored,
    and every other count raises [ValueError] (a blank line among them). *)
Theorem cur_pose_accepts {F : Type} (f0 f1 : F) (values : list F) :
  ((exists m, cur_pose f0 f1 values = Ok m) <-> accepted_length (length values))
  /\ (~ accepted_length (length values) -> cur_pose f0 f1 values = Raise ValueError)
  /\ ((12 <= length values)%nat ->
      cur_pose f0 f1 values = Ok (pose_matrix f0 f1 (take 12 values)))
  /\ (forall a b c d e f g h i : F,
        cur_pose f0 f1 [a; b; c; d; e; f; g; h; i]
        = Ok [[a; b; c; d]; [e; f; g; h]; [i; i; i; i]; [f0; f0; f0; f1]])
  /\ cur_pose f0 f1 [] = Raise ValueError.
Proof.
  destruct (cur_pose_cases f0 f1 values) as [(Ha & m & Hm & _)|(Hn & Hr)].
  - split; [split; [intros _; exact Ha|intros _; eauto]|].
    split; [intros Hn; contradiction|].
    split; [intros Hl; rewrite pose_matrix_take; apply cur_pose_long, Hl|].
    split; reflexivity.
  - split; [split; [intros [m Hm]; rewrite Hr in Hm; discriminate Hm
                   |intros Ha; contradiction]|].
    split; [intros _; exact Hr|].
    split; [intros Hl; exfalso; apply Hn; right; exact Hl|].
    split; reflexivity.
Qed.

(** An instance of X8: thirteen values, and five. *)
Lemma cur_pose_accepts_witness :
  cur_pose 0 1 [1; 2; 3; 4; 5; 6; 7; 8; 9; 10; 11; 12; 13]
  = Ok [[1; 2; 3; 4]; [5; 6; 7; 8]; [9; 10; 11; 12]; [0; 0; 0; 1]]
  /\ cur_pose 0 1 [1; 2; 3; 4; 5] = Raise ValueError.
Proof.
  destruct (cur_pose_accepts 0 1 [1; 2; 3; 4; 5; 6; 7; 8; 9; 10; 11; 12; 13])
    as (_ & _ & H12 & _).
  destruct (cur_pose_accepts 0 1 [1; 2; 3; 4; 5]) as (_ & Hbad & _).
  split; [apply H12; simpl; lia|].
  apply Hbad. unfold accepted_length. simpl. lia.
Defined.

Section PosesFileFacts.
Context {F : Type}.
Variables f0 f1 : F.
Variables fadd fmul : F -> F -> F.

Lemma read_poses_cases Tr Tr_inv (file : list (list F)) : forall poses,
  is_4x4 Tr -> is_4x4 Tr_inv ->
  (Forall (fun values => accepted_length (length values)) file
   /\ exists more,
       read_poses f0 f1 fadd fmul Tr Tr_inv file poses = Ok (poses ++ more)%list
       /\ length more = length file /\ Forall is_4x4 more)
  \/ (~ Forall (fun values => accepted_length (length values)) file
      /\ read_poses f0 f1 fadd fmul Tr Tr_inv file poses = Raise ValueError).
Proof.
  intros poses HTr HTi. revert poses.
  induction file as [|values file IH]; intros poses.
  - left. split; [constructor|]. exists []. rewrite app_nil_r.
    repeat split. constructor.
  - cbn [read_poses].
    destruct (cur_pose_cases f0 f1 values) as [(Ha & m & -> & Hm)|(Hn & ->)].
    + cbn [mbind result_bind].
      destruct (matmul_4x4 f0 fadd fmul m Tr Hm HTr) as [-> H1].
      cbn [mbind result_bind].
      destruct (matmul_4x4 f0 fadd fmul Tr_inv _ HTi H1) as [-> H2].
      cbn [mbind result_bind].
      destruct (IH (poses ++ [mat_product f0 fadd fmul Tr_inv
                                (mat_product f0 fadd fmul m Tr)])%list)
        as [(Hall & more & -> & Hlen & H4)|(Hnot & ->)].
      * left. split; [constructor; assumption|].
        eexists (_ :: more). rewrite <- app_assoc. split; [reflexivity|].
        split; [simpl; rewrite Hlen; reflexivity|constructor; assumption].
      * right. split; [|reflexivity]. intros Hall. apply Hnot.
        inversion Hall; assumption.
    + right. split; [|reflexivity]. intros Hall. apply Hn.
      inversion Hall; assumption.
Qed.
End PosesFileFacts.

(** X9. Given a calibration with a 4 x 4 [Tr] that has a 4 x 4 inverse,
    [parse_poses] succeeds exactly when every line holds nine or at least
    twelve values, and then returns as many poses as there are lines, each
    a 4 x 4 matrix; a single line of another length (a blank line, say),
    wherever it stands, makes the whole call raise [ValueError]. *)
Theorem parse_poses_all_or_nothing {F : Type} (f0 f1 : F) (fadd fmul : F -> F -> F)
    (linalg_inv : grid F -> option (grid F))
    (file : list (list F)) (calibration : gmap string (grid F))
    (Tr Tr_inv : grid F) :
  calibration !! "Tr" = Some Tr ->
  linalg_inv Tr = Some Tr_inv ->
  is_4x4 Tr -> is_4x4 Tr_inv ->
  (Forall (fun values => accepted_length (length values)) file ->
   exists poses,
     parse_poses f0 f1 fadd fmul linalg_inv file calibration = Ok poses
     /\ length poses = length file /\ Forall is_4x4 poses)
  /\ (~ Forall (fun values => accepted_length (length values)) file ->
      parse_poses f0 f1 fadd fmul linalg_inv file calibration = Raise ValueError).
Proof.
  intros HTr Hinv H4 H4i. unfold parse_poses.
  rewrite HTr. cbn [mbind result_bind]. rewrite Hinv. cbn [mbind result_bind].
  destruct (read_poses_cases f0 f1 fadd fmul Tr Tr_inv file [] H4 H4i)
    as [(Hall & more & -> & Hlen & Hm)|(Hnot & ->)].
  - split; [|intros Hn; contradiction]. intros _. exists more. auto.
  - split; [intros Hall; contradiction|]. intros _. reflexivity.
Qed.

(** An instance of X9: a good line, then a blank one. *)
Lemma parse_poses_all_or_nothing_witness :
  parse_poses 0 1 Z.add Z.mul demo_inv
    [[1; 2; 3; 4; 5; 6; 7; 8; 9; 10; 11; 12]; []] demo_calibration
  = Raise ValueError
  /\ exists poses,
      parse_poses 0 1 Z.add Z.mul demo_inv
        [[1; 2; 3; 4; 5; 6; 7; 8; 9]] demo_calibration = Ok poses
      /\ length poses = 1%nat /\ Forall is_4x4 poses.
Proof.
  assert (Hd : is_4x4 demo_Tr) by (split; [reflexivity|repeat constructor]).
  assert (Hi : is_4x4 demo_Tr_inv) by (split; [reflexivity|repeat constructor]).
  destruct (parse_poses_all_or_nothing 0 1 Z.add Z.mul demo_inv
              [[1; 2; 3; 4; 5; 6; 7; 8; 9; 10; 11; 12]; []] demo_calibration
              demo_Tr demo_Tr_inv eq_refl eq_refl Hd Hi) as [_ Hbad].
  destruct (parse_poses_all_or_nothing 0 1 Z.add Z.mul demo_inv
              [[1; 2; 3; 4; 5; 6; 7; 8; 9]] demo_calibration
              demo_Tr demo_Tr_inv eq_refl eq_refl Hd Hi) as [Hgood _].
  split.
  - apply Hbad. intros Hall. inversion Hall as [|? ? _ Hrest]; subst.
    inversion Hrest as [|? ? Hempty _]; subst.
    unfold accepted_length in Hempty. simpl in Hempty. lia.
  - apply Hgood. repeat constructor.
Defined.

(** ** The calibration file *)

Lemma length_split_on sep s : length (split_on sep s) = S (count_char sep s).
Proof.
  induction s as [|c s IH]; [reflexivity|]. cbn [split_on count_char].
  destruct (Ascii.eqb c sep); simpl.
  - rewrite IH. reflexivity.
  - destruct (split_on sep s) as [|part parts]; [discriminate IH|].
    simpl in *. exact IH.
Qed.

Section CalibrationFacts.
Context {F : Type}.
Variables f0 f1 : F.
Variable strip : string -> string.
Variable float_fields : string -> result (list F).

Let line_of := calibration_line f0 f1 strip float_fields.

(** One turn of the loop: it goes on exactly on the lines [calibration_line]
    describes, and raises [ValueError] on any line whose stripped text has
    not exactly one colon. *)
Lemma read_calibration_step line calib_file calib :
  (exists key pose,
      line_of line key pose
      /\ read_calibration f0 f1 strip float_fields (line :: calib_file) calib
         = read_calibration f0 f1 strip float_fields calib_file (<[key := pose]> calib))
  \/ (exists e, read_calibration f0 f1 strip float_fields (line :: calib_file) calib
                = Raise e
                /\ (count_char ":" (strip line) <> 1%nat -> e = ValueError)).
Proof.
  cbn [read_calibration].
  pose proof (length_split_on ":" (strip line)) as Hlen.
  destruct (split_on ":" (strip line)) as [|key [|content [|more parts]]] eqn:Hsplit;
    try (right; exists ValueError; split; [reflexivity|intros _; reflexivity]).
  simpl in Hlen.
  destruct (float_fields content) as [values|e] eqn:Hf; cbn [mbind result_bind];
    [|right; exists e; split; [reflexivity|intros Hc; lia]].
  destruct (cur_pose f0 f1 values) as [pose|e] eqn:Hp; cbn [mbind result_bind];
    [|right; exists e; split; [reflexivity|intros Hc; lia]].
  left. exists key, pose. split; [|reflexivity].
  exists content, values. repeat split; assumption.
Qed.

Lemma read_calibration_inv calib_file : forall calib result,
  read_calibration f0 f1 strip float_fields calib_file calib = Ok result ->
  Forall (fun line => count_char ":" (strip line) = 1%nat
                      /\ exists key pose, line_of line key pose
                                          /\ is_Some (result !! key)) calib_file
  /\ (forall key, is_Some (calib !! key) -> is_Some (result !! key))
  /\ (forall key pose, result !! key = Some pose ->
        calib !! key = Some pose
        \/ exists line, line ∈ calib_file /\ line_of line key pose).
Proof.
  induction calib_file as [|line calib_file IH]; intros calib result Hres.
  - injection Hres as <-. split; [constructor|]. split; auto.
  - destruct (read_calibration_step line calib_file calib)
      as [(key & pose & Hline & Hstep)|(e & Hraise & _)];
      [|rewrite Hraise in Hres; discriminate Hres].
    rewrite Hstep in Hres. destruct (IH _ _ Hres) as (Hall & Hmono & Hfrom).
    split; [constructor; [split|exact Hall]|split].
    + destruct Hline as (content & values & Hsplit & _).
      pose proof (length_split_on ":" (strip line)) as Hlen.
      rewrite Hsplit in Hlen. simpl in Hlen. lia.
    + exists key, pose. split; [exact Hline|].
      apply Hmono. rewrite lookup_insert_eq. eauto.
    + intros k Hk. apply Hmono.
      destruct (decide (key = k)) as [->|Hne];
        [rewrite lookup_insert_eq; eauto|rewrite lookup_insert_ne by exact Hne; exact Hk].
    + intros k m Hm. destruct (Hfrom k m Hm) as [Hins|(l & Hl & Hlk)].
      * destruct (decide (key = k)) as [->|Hne].
        -- rewrite lookup_insert_eq in Hins. injection Hins as <-.
           right. exists line. split; [apply list_elem_of_here|exact Hline].
        -- rewrite lookup_insert_ne in Hins by exact Hne. left. exact Hins.
      * right. exists l. split; [apply list_elem_of_further, Hl|exact Hlk].
Qed.

Lemma read_calibration_app before after : forall calib,
  read_calibration f0 f1 strip float_fields (before ++ after) calib
  = (mid ← read_calibration f0 f1 strip float_fields before calib;
     read_calibration f0 f1 strip float_fields after mid).
Proof.
  induction before as [|line before IH]; intros calib; [reflexivity|].
  rewrite <- app_comm_cons. cbn [read_calibration].
  destruct (split_on ":" (strip line)) as [|key [|content [|more parts]]];
    try reflexivity.
  destruct (float_fields content) as [values|e]; cbn [mbind result_bind];
    [|reflexivity].
  destruct (cur_pose f0 f1 values) as [pose|e]; cbn [mbind result_bind];
    [|reflexivity].
  apply IH.
Qed.
End CalibrationFacts.

(** X10. When [parse_calibration] returns a dictionary, every line of the
    file had exactly one colon (after [strip]) and gave an entry (its key
    is in the dictionary), and every entry of the dictionary is a 4 x 4
    matrix built from a line of the file that carries its key. *)
Theorem parse_calibration_entries {F : Type} (f0 f1 : F)
    (strip : string -> string) (float_fields : string -> result (list F))
    (calib_file : list string) (calib : gmap string (grid F)) :
  parse_calibration f0 f1 strip float_fields calib_file = Ok calib ->
  Forall (fun line =>
            count_char ":" (strip line) = 1%nat
            /\ exists key pose,
                 calibration_line f0 f1 strip float_fields line key pose
                 /\ is_Some (calib !! key)) calib_file
  /\ (forall key pose, calib !! key = Some pose ->
        is_4x4 pose
        /\ exists line, line ∈ calib_file
                        /\ calibration_line f0 f1 strip float_fields line key pose).
Proof.
  intros Hres. unfold parse_calibration in Hres.
  destruct (read_calibration_inv f0 f1 strip float_fields _ _ _ Hres)
    as (Hall & _ & Hfrom).
  split; [exact Hall|]. intros key pose Hk.
  destruct (Hfrom key pose Hk) as [Habs|(line & Hin & Hline)];
    [rewrite lookup_empty in Habs; discriminate Habs|].
  split; [|exists line; split; assumption].
  destruct Hline as (content & values & _ & _ & Hpose).
  destruct (cur_pose_cases f0 f1 values) as [(_ & m & Hm & H4)|(_ & Hr)].
  - rewrite Hm in Hpose. injection Hpose as <-. exact H4.
  - rewrite Hr in Hpose. discriminate Hpose.
Qed.

(** An instance of X10: a file of one line. *)
Lemma parse_calibration_entries_witness :
  demo_parse_calibration ["Tr: 1 0 0 2 0 1 0 0 0 0 1 0"] = Ok demo_calibration
  /\ (forall key pose, demo_calibration !! key = Some pose -> is_4x4 pose).
Proof.
  assert (E : demo_parse_calibration ["Tr: 1 0 0 2 0 1 0 0 0 0 1 0"]
              = Ok demo_calibration) by reflexivity.
  split; [exact E|]. intros key pose Hk.
  destruct (parse_calibration_entries 0 1 id demo_fields _ _ E) as [_ H].
  destruct (H key pose Hk) as [H4 _]. exact H4.
Defined.

(** X11. A later line overwrites an earlier one with the same key: a
    well-formed line appended to a file that parses adds its matrix under
    its key, replacing what was there, and leaves the other keys as they
    were. *)
Theorem parse_calibration_last_wins {F : Type} (f0 f1 : F)
    (strip : string -> string) (float_fields : string -> result (list F))
    (calib_file : list string) (calib : gmap string (grid F))
    (line key : string) (pose : grid F) :
  parse_calibration f0 f1 strip float_fields calib_file = Ok calib ->
  calibration_line f0 f1 strip float_fields line key pose ->
  exists calib',
    parse_calibration f0 f1 strip float_fields (calib_file ++ [line]) = Ok calib'
    /\ calib' !! key = Some pose
    /\ (forall other, other <> key -> calib' !! other = calib !! other).
Proof.
  intros Hres (content & values & Hsplit & Hf & Hp).
  exists (<[key := pose]> calib). split; [|split].
  - unfold parse_calibration in *. rewrite read_calibration_app, Hres.
    cbn [mbind result_bind read_calibration].
    rewrite Hsplit, Hf. cbn [mbind result_bind]. rewrite Hp. reflexivity.
  - apply lookup_insert_eq.
  - intros other Hne. apply lookup_insert_ne. congruence.
Qed.

(** An instance of X11: the same key twice. *)
Lemma parse_calibration_last_wins_witness :
  exists calib',
    demo_parse_calibration
      (["Tr: 1 0 0 2 0 1 0 0 0 0 1 0"] ++ ["Tr: 1 0 0 2 0 1 0 0 0 0 1 0"]) = Ok calib'
    /\ calib' !! "Tr" = Some demo_Tr
    /\ (forall other, other <> "Tr" -> calib' !! other = demo_calibration !! other).
Proof.
  apply (parse_calibration_last_wins 0 1 id demo_fields
           ["Tr: 1 0 0 2 0 1 0 0 0 0 1 0"] demo_calibration
           "Tr: 1 0 0 2 0 1 0 0 0 0 1 0" "Tr" demo_Tr).
  - reflexivity.
  - exists " 1 0 0 2 0 1 0 0 0 0 1 0", [1; 0; 0; 2; 0; 1; 0; 0; 0; 0; 1; 0].
    repeat split.
Defined.

(** X12. A line whose stripped text has no colon, or more than one, stops
    [parse_calibration] with a [ValueError], wherever it comes after lines
    that parse; a blank line is such a line. *)
Theorem parse_calibration_bad_line {F : Type} (f0 f1 : F)
    (strip : string -> string) (float_fields : string -> result (list F))
    (before after : list string) (calib : gmap string (grid F)) (line : string) :
  parse_calibration f0 f1 strip float_fields before = Ok calib ->
  count_char ":" (strip line) <> 1%nat ->
  parse_calibration f0 f1 strip float_fields (before ++ line :: after)
  = Raise ValueError.
Proof.
  intros Hres Hcount. unfold parse_calibration in *.
  rewrite read_calibration_app, Hres. cbn [mbind result_bind].
  destruct (read_calibration_step f0 f1 strip float_fields line after calib)
    as [(key & pose & (content & values & Hsplit & _) & _)|(e & -> & He)].
  - exfalso. apply Hcount.
    pose proof (length_split_on ":" (strip line)) as Hlen.
    rewrite Hsplit in Hlen. simpl in Hlen. lia.
  - rewrite (He Hcount). reflexivity.
Qed.

(** An instance of X12: an empty line after a good one. *)
Lemma parse_calibration_bad_line_witness :
  demo_parse_calibration (["Tr: 1 0 0 2 0 1 0 0 0 0 1 0"] ++ "" :: ["P0: 1"])
  = Raise ValueError.
Proof.
  apply (parse_calibration_bad_line 0 1 id demo_fields _ _ demo_calibration).
  - reflexivity.
  - discriminate.
Defined.

(** X13. [parse_poses] reads the key "Tr" of what [parse_calibration]
    built: when no line of the calibration file carries that very key (a
    key "Tr " with a blank before the colon is another key), it raises
    [KeyError], whatever the poses file holds. *)
Theorem parse_poses_needs_Tr {F : Type} (f0 f1 : F) (fadd fmul : F -> F -> F)
    (linalg_inv : grid F -> option (grid F))
    (strip : string -> string) (float_fields : string -> result (list F))
    (calib_file : list string) (calib : gmap string (grid F))
    (file : list (list F)) :
  parse_calibration f0 f1 strip float_fields calib_file = Ok calib ->
  (forall line content, line ∈ calib_file ->
     split_on ":" (strip line) <> ["Tr"; content]) ->
  parse_poses f0 f1 fadd fmul linalg_inv file calib = Raise KeyError.
Proof.
  intros Hres Hno. unfold parse_calibration in Hres.
  destruct (read_calibration_inv f0 f1 strip float_fields _ _ _ Hres)
    as (_ & _ & Hfrom).
  unfold parse_poses.
  destruct (calib !! "Tr") as [m|] eqn:Hm; [|reflexivity].
  exfalso. destruct (Hfrom "Tr" m Hm) as [Habs|(line & Hin & Hline)].
  - rewrite lookup_empty in Habs. discriminate Habs.
  - destruct Hline as (content & values & Hsplit & _).
    exact (Hno line content Hin Hsplit).
Qed.

(** An instance of X13: the key written with a blank before the colon. *)
Lemma parse_poses_needs_Tr_witness :
  exists calib,
    demo_parse_calibration ["Tr : 1 0 0 2 0 1 0 0 0 0 1 0"] = Ok calib
    /\ parse_poses 0 1 Z.add Z.mul demo_inv
         [[1; 2; 3; 4; 5; 6; 7; 8; 9; 10; 11; 12]] calib
       = Raise KeyError.
Proof.
  eexists. split; [reflexivity|].
  apply (parse_poses_needs_Tr 0 1 Z.add Z.mul demo_inv id demo_fields
           ["Tr : 1 0 0 2 0 1 0 0 0 0 1 0"]).
  - reflexivity.
  - intros line content Hin. apply list_elem_of_singleton in Hin. subst line.
    discriminate.
Defined.

(** ** More on the difference images *)

Lemma set_diff_target_after prec emax conv self src tgt :
  snd (fst (Vis.set_diff prec emax conv self src tgt))
  = if show_diff self then target_after src tgt else tgt.
Proof.
  unfold Vis.set_diff, target_after, get_label_map.
  destruct (show_diff self); cbn [negb]; [|reflexivity].
  destruct (proj_color src) as [sl|]; cbn [getattr mbind result_bind]; [|reflexivity].
  destruct (label_map src) as [sm|]; cbn [getattr mbind result_bind]; [|reflexivity].
  destruct (Vis.labelled_target tgt) as [t|e]; cbn [mbind result_bind]; [|reflexivity].
  destruct (proj_color t) as [tl|]; cbn [getattr mbind result_bind]; [|reflexivity].
  destruct (label_map t) as [tm|]; cbn [getattr mbind result_bind]; [|reflexivity].
  destruct (mask_assign (Vis.black_mask sl) tl black_rgb) as [tl'|e]; [|reflexivity].
  cbv zeta.
  destruct (mask_assign _ tm 0) as [tm'|e]; [|reflexivity].
  rewrite store_labelled_twice.
  repeat case_match; reflexivity.
Qed.

Lemma zip_exact_again {A B} e (f : A -> B -> result B) la : forall lb lc,
  (forall a b c, f a b = Ok c -> f a c = Ok c) ->
  zip_exact e f la lb = Ok lc -> zip_exact e f la lc = Ok lc.
Proof.
  intros lb lc Hf. revert lb lc.
  induction la as [|a la IH]; intros [|b lb] lc H; simpl in H; try discriminate H.
  - injection H as <-. reflexivity.
  - destruct (f a b) as [c|] eqn:Hc; cbn [mbind result_bind] in H; [|discriminate H].
    destruct (zip_exact e f la lb) as [cs|] eqn:Hcs; cbn [mbind result_bind] in H;
      [|discriminate H].
    injection H as <-. simpl. rewrite (Hf _ _ _ Hc), (IH _ _ Hcs). reflexivity.
Qed.

Lemma mask_assign_again {A} (mask : grid bool) (a a' : grid A) v :
  mask_assign mask a v = Ok a' -> mask_assign mask a' v = Ok a'.
Proof.
  unfold mask_assign. apply zip_exact_again.
  intros r s s'. apply zip_exact_again.
  intros m x c H. injection H as <-. destruct m; reflexivity.
Qed.

Lemma zip_exact_same_length {A B C} e (f : A -> B -> result C) la : forall lb lc,
  zip_exact e f la lb = Ok lc -> length la = length lb.
Proof.
  induction la as [|a la IH]; intros [|b lb] lc H; simpl in H; try discriminate H;
    [reflexivity|].
  destruct (f a b); cbn [mbind result_bind] in H; [|discriminate H].
  destruct (zip_exact e f la lb) eqn:E; cbn [mbind result_bind] in H; [|discriminate H].
  simpl. f_equal. eapply IH, E.
Qed.

Lemma target_after_idempotent src tgt :
  target_after src (target_after src tgt) = target_after src tgt.
Proof.
  destruct (proj_color src) as [sl|] eqn:Hsl;
    [|unfold target_after; rewrite Hsl; reflexivity].
  destruct (label_map src) as [sm|] eqn:Hsm;
    [|unfold target_after; rewrite Hsl, Hsm; reflexivity].
  destruct (Vis.labelled_target tgt) as [t|e] eqn:Ht.
  2: { assert (E : target_after src tgt = tgt)
         by (unfold target_after; rewrite Hsl, Hsm, Ht; reflexivity).
       rewrite !E. reflexivity. }
  destruct (proj_color t) as [tl|] eqn:Htl.
  2: { assert (E : target_after src tgt = tgt)
         by (unfold target_after; rewrite Hsl, Hsm, Ht, Htl; reflexivity).
       rewrite !E. reflexivity. }
  destruct (label_map t) as [tm|] eqn:Htm.
  2: { assert (E : target_after src tgt = tgt)
         by (unfold target_after; rewrite Hsl, Hsm, Ht, Htl, Htm; reflexivity).
       rewrite !E. reflexivity. }
  destruct (mask_assign (Vis.black_mask sl) tl black_rgb) as [tl'|e] eqn:H1.
  2: { assert (E : target_after src tgt = tgt)
         by (unfold target_after; rewrite Hsl, Hsm, Ht, Htl, Htm, H1; reflexivity).
       rewrite !E. reflexivity. }
  destruct (mask_assign (grid_map (fun l => l =? 0) sm) tm 0) as [tm'|e] eqn:H2.
  - assert (E : target_after src tgt
                = Vis.store_labelled tgt (with_label_map (with_proj_color t tl') tm'))
      by (unfold target_after; rewrite Hsl, Hsm, Ht, Htl, Htm, H1, H2; reflexivity).
    rewrite !E. unfold target_after. rewrite Hsl, Hsm.
    rewrite (labelled_target_store _ _ _ Ht).
    cbn [proj_color label_map with_label_map with_proj_color].
    rewrite (mask_assign_again _ _ _ _ H1), (mask_assign_again _ _ _ _ H2).
    rewrite store_labelled_twice. reflexivity.
  - assert (E : target_after src tgt
                = Vis.store_labelled tgt (with_proj_color t tl'))
      by (unfold target_after; rewrite Hsl, Hsm, Ht, Htl, Htm, H1, H2; reflexivity).
    rewrite !E. unfold target_after. rewrite Hsl, Hsm.
    rewrite (labelled_target_store _ _ _ Ht).
    cbn [proj_color label_map with_label_map with_proj_color].
    rewrite Htm, (mask_assign_again _ _ _ _ H1), H2.
    rewrite store_labelled_twice. reflexivity.
Qed.

(** X14. Masking is idempotent: a second [set_diff] with the same source,
    on any viewer, leaves the target as the first call left it, whether
    the calls went through or raised. *)
Theorem set_diff_twice (prec emax : Z) (conv : grid spec_float -> grid spec_float)
    (self self' : LaserScanVis) (src : LaserScan) (tgt : AdaptedScan) :
  show_diff self = true ->
  snd (fst (Vis.set_diff prec emax conv self' src
              (snd (fst (Vis.set_diff prec emax conv self src tgt)))))
  = snd (fst (Vis.set_diff prec emax conv self src tgt)).
Proof.
  intros Hshow. rewrite !set_diff_target_after, Hshow.
  destruct (show_diff self'); [apply target_after_idempotent|reflexivity].
Qed.

(** An instance of X14 on the one-pixel scans. *)
Lemma set_diff_twice_witness :
  snd (fst (Vis.set_diff 53 1024 id diff_vis demo_source
              (snd (fst (Vis.set_diff 53 1024 id diff_vis demo_source demo_target)))))
  = snd (fst (Vis.set_diff 53 1024 id diff_vis demo_source demo_target)).
Proof. apply set_diff_twice. reflexivity. Defined.

Lemma zip_exact_raises {A B C} e (f : A -> B -> result C) la : forall lb e',
  (forall a b e'', f a b = Raise e'' -> e'' = e) ->
  zip_exact e f la lb = Raise e' -> e' = e.
Proof.
  intros lb e' Hf. revert lb.
  induction la as [|a la IH]; intros [|b lb] H; simpl in H;
    try (injection H as <-; reflexivity); try discriminate H.
  destruct (f a b) as [c|e1] eqn:Hc; cbn [mbind result_bind] in H.
  - destruct (zip_exact e f la lb) as [cs|e2] eqn:Hcs; cbn [mbind result_bind] in H;
      [discriminate H|].
    injection H as <-. eapply IH, Hcs.
  - injection H as <-. eapply Hf, Hc.
Qed.

Lemma mask_assign_raises {A} (mask : grid bool) (a : grid A) v e :
  mask_assign mask a v = Raise e -> e = IndexError.
Proof.
  unfold mask_assign. apply zip_exact_raises.
  intros r s e'. apply zip_exact_raises. intros m x e'' H. discriminate H.
Qed.

Lemma mask_assign_Ok_shape {A} (mask : grid bool) (a a' : grid A) v :
  mask_assign mask a v = Ok a' -> same_shape mask a.
Proof.
  unfold mask_assign, same_shape. revert a a'.
  induction mask as [|r mask IH]; intros [|s a] a' H; simpl in H;
    try discriminate H; [constructor|].
  destruct (zip_exact IndexError _ r s) as [c|] eqn:Hc; cbn [mbind result_bind] in H;
    [|discriminate H].
  destruct (zip_exact IndexError _ mask a) as [cs|] eqn:Hcs;
    cbn [mbind result_bind] in H; [|discriminate H].
  constructor; [eapply zip_exact_same_length, Hc|eapply IH, Hcs].
Qed.

Lemma mask_assign_mismatch {A} (mask : grid bool) (a : grid A) v :
  ~ same_shape mask a -> mask_assign mask a v = Raise IndexError.
Proof.
  intros Hn. destruct (mask_assign mask a v) as [a'|e] eqn:E.
  - exfalso. eapply Hn, mask_assign_Ok_shape, E.
  - f_equal. eapply mask_assign_raises, E.
Qed.

Lemma same_shape_grid_map_inv {A A' B} (g : A -> A') (a : grid A) (b : grid B) :
  same_shape (grid_map g a) b -> same_shape a b.
Proof.
  unfold same_shape, grid_map. revert b.
  induction a as [|r a IH]; intros b H; inversion H; subst; constructor.
  - rewrite length_map in *. assumption.
  - apply IH. assumption.
Qed.

(** X15. With the difference panel on and all four label arrays in hand,
    a source and a target label image of different shapes make [set_diff]
    raise [IndexError] with the target untouched; when these agree but the
    label maps differ in shape, it raises [IndexError] after the label
    image of the target has already been masked. *)
Theorem set_diff_shape_mismatch (prec emax : Z)
    (conv : grid spec_float -> grid spec_float)
    (self : LaserScanVis) (src : LaserScan) (tgt : AdaptedScan) (t : LaserScan)
    (sl tl : grid rgb) (sm tm : grid Z) :
  show_diff self = true ->
  proj_color src = Some sl -> label_map src = Some sm ->
  Vis.labelled_target tgt = Ok t ->
  proj_color t = Some tl -> label_map t = Some tm ->
  (~ same_shape sl tl ->
   Vis.set_diff prec emax conv self src tgt = (self, tgt, Some IndexError))
  /\ (same_shape sl tl -> ~ same_shape sm tm ->
      Vis.set_diff prec emax conv self src tgt
      = (self, Vis.store_labelled tgt (with_proj_color t (masked_colors sl tl)),
         Some IndexError)).
Proof.
  intros Hshow Hsl Hsm Ht Htl Htm.
  unfold Vis.set_diff. rewrite Hshow. cbn [negb].
  unfold get_label_map. rewrite Hsl, Hsm, Ht.
  cbn [getattr mbind result_bind]. rewrite Htl, Htm.
  cbn [getattr mbind result_bind]. split.
  - intros Hn. rewrite mask_assign_mismatch; [reflexivity|].
    intros Hs. apply Hn. eapply same_shape_grid_map_inv, Hs.
  - intros Hc Hn.
    rewrite mask_assign_same_shape by (apply same_shape_grid_map, Hc).
    rewrite (mask_assign_mismatch (grid_map _ sm));
      [|intros Hs; apply Hn; eapply same_shape_grid_map_inv, Hs].
    unfold Vis.black_mask. rewrite zip_with_grid_map_l. reflexivity.
Qed.

(** An instance of X15: a source image of one pixel, a target of two. *)
Lemma set_diff_shape_mismatch_witness :
  Vis.set_diff 53 1024 id diff_vis demo_source
    {| scan_of := with_proj_color (scan_of demo_target) [[black_rgb; black_rgb]];
       adaption := "mesh"; merged := None |}
  = (diff_vis,
     {| scan_of := with_proj_color (scan_of demo_target) [[black_rgb; black_rgb]];
        adaption := "mesh"; merged := None |},
     Some IndexError).
Proof.
  eapply (set_diff_shape_mismatch 53 1024 id diff_vis demo_source _ _
            [[black_rgb]] [[black_rgb; black_rgb]] [[0]] [[10]]);
    try reflexivity.
  intros Hs. inversion Hs as [|? ? ? ? Hrow _]. discriminate Hrow.
Defined.

Lemma target_after_cases src tgt :
  target_after src tgt = tgt
  \/ exists sl t tl t',
      proj_color src = Some sl /\ Vis.labelled_target tgt = Ok t
      /\ proj_color t = Some tl
      /\ target_after src tgt = Vis.store_labelled tgt t'
      /\ proj_color t' = Some (masked_colors sl tl)
      /\ proj_range t' = proj_range t.
Proof.
  unfold target_after.
  destruct (proj_color src) as [sl|] eqn:Hsl; [|left; reflexivity].
  destruct (label_map src) as [sm|]; [|left; reflexivity].
  destruct (Vis.labelled_target tgt) as [t|e] eqn:Ht; [|left; reflexivity].
  destruct (proj_color t) as [tl|] eqn:Htl; [|left; reflexivity].
  destruct (label_map t) as [tm|]; [|left; reflexivity].
  destruct (mask_assign (Vis.black_mask sl) tl black_rgb) as [tl'|e] eqn:H1;
    [|left; reflexivity].
  assert (Etl : tl' = masked_colors sl tl).
  { pose proof (mask_assign_Ok_shape _ _ _ _ H1) as Hs.
    rewrite mask_assign_same_shape in H1 by exact Hs. injection H1 as <-.
    unfold Vis.black_mask. apply zip_with_grid_map_l. }
  subst tl'. cbv zeta. right.
  destruct (mask_assign _ tm 0) as [tm'|e];
    eexists sl, t, tl, _; repeat split; try eassumption; reflexivity.
Qed.

(** X16. What [set_diff] never touches, whatever it is given and however
    it ends: the adaption mode and the range image of the target; the
    target's own scan under the adaption "cp" and its merged scan under
    any other; and, in the label image it masks, every pixel at which the
    channels of the source do not sum to zero. *)
Theorem set_diff_frame (prec emax : Z) (conv : grid spec_float -> grid spec_float)
    (self : LaserScanVis) (src : LaserScan) (tgt : AdaptedScan) :
  let tgt' := snd (fst (Vis.set_diff prec emax conv self src tgt)) in
  adaption tgt' = adaption tgt
  /\ proj_range (scan_of tgt') = proj_range (scan_of tgt)
  /\ (adaption tgt = "cp" -> scan_of tgt' = scan_of tgt)
  /\ (adaption tgt <> "cp" -> merged tgt' = merged tgt)
  /\ (forall sl t tl t' tl' i j c x,
        proj_color src = Some sl ->
        Vis.labelled_target tgt = Ok t -> proj_color t = Some tl ->
        Vis.labelled_target tgt' = Ok t' -> proj_color t' = Some tl' ->
        pixel sl i j = Some c -> channel_sum c <> 0 ->
        pixel tl i j = Some x -> pixel tl' i j = Some x).
Proof.
  intros tgt'. subst tgt'. rewrite set_diff_target_after.
  destruct (show_diff self).
  2: { repeat split; try reflexivity.
       intros sl t tl t' tl' i j c x _ Ht Htl Ht' Htl' _ _ Hx. congruence. }
  destruct (target_after_cases src tgt)
    as [->|(sl & t & tl & t' & Hsl & Ht & Htl & -> & Hc' & Hr')].
  { repeat split; try reflexivity.
    intros sl t tl t' tl' i j c x _ Ht Htl Ht' Htl' _ _ Hx. congruence. }
  unfold Vis.store_labelled, Vis.labelled_target in *.
  destruct (String.eqb_spec (adaption tgt) "cp") as [Ecp|Ecp]; cbn [adaption scan_of merged].
  - split; [reflexivity|]. split; [reflexivity|]. split; [reflexivity|].
    split; [intros Hn; contradiction|].
    intros sl0 t0 tl0 t0' tl0' i j c x Hsl0 Ht0 Htl0 Ht0' Htl0' Hc Hsum Hx.
    rewrite Ecp in Ht0'. cbn [String.eqb Ascii.eqb Bool.eqb getattr] in Ht0'.
    assert (t0' = t') by congruence. subst t0'.
    assert (t0 = t) by congruence. subst t0.
    assert (sl0 = sl) by congruence. assert (tl0 = tl) by congruence. subst.
    rewrite Hc' in Htl0'. injection Htl0' as <-.
    unfold masked_colors. erewrite pixel_zip_with by eassumption.
    destruct (Z.eqb_spec (channel_sum c) 0); [contradiction|reflexivity].
  - injection Ht as <-.
    split; [reflexivity|]. split; [exact Hr'|].
    split; [intros Hn; contradiction|]. split; [reflexivity|].
    intros sl0 t0 tl0 t0' tl0' i j c x Hsl0 Ht0 Htl0 Ht0' Htl0' Hc Hsum Hx.
    destruct (String.eqb_spec (adaption tgt) "cp") as [?|_]; [contradiction|].
    injection Ht0' as <-. injection Ht0 as <-.
    assert (sl0 = sl) by congruence. assert (tl0 = tl) by congruence. subst.
    rewrite Hc' in Htl0'. injection Htl0' as <-.
    unfold masked_colors. erewrite pixel_zip_with by eassumption.
    destruct (Z.eqb_spec (channel_sum c) 0); [contradiction|reflexivity].
Qed.

(** An instance of X16: two pixels, the second one labelled in the source. *)
Lemma set_diff_frame_witness :
  let src := with_proj_color demo_source [[black_rgb; (0, 0, 255)]] in
  let tgt := {| scan_of := with_proj_color (scan_of demo_target)
                             [[(245, 150, 100); (30, 30, 255)]];
                adaption := "mesh"; merged := None |} in
  let tgt' := snd (fst (Vis.set_diff 53 1024 id diff_vis src tgt)) in
  proj_color (scan_of tgt') = Some [[black_rgb; (30, 30, 255)]]
  /\ pixel [[black_rgb; (30, 30, 255)]] 0 1 = Some (30, 30, 255)
  /\ merged tgt' = None.
Proof.
  intros src tgt tgt'.
  destruct (set_diff_frame 53 1024 id diff_vis src tgt) as (_ & _ & _ & Hm & Hpix).
  split; [reflexivity|]. split.
  - eapply (Hpix [[black_rgb; (0, 0, 255)]] _ [[(245, 150, 100); (30, 30, 255)]]
              _ _ 0%nat 1%nat (0, 0, 255)); try reflexivity. discriminate.
  - apply Hm. discriminate.
Defined.

Lemma pixel_grid_map {A B} (f : A -> B) (a : grid A) i j :
  pixel (grid_map f a) i j = f <$> pixel a i j.
Proof.
  unfold pixel, grid_map, grid in *. rewrite !map_is_fmap, list_lookup_fmap.
  destruct (a !! i) as [row|]; [|reflexivity]. simpl.
  rewrite map_is_fmap. apply list_lookup_fmap.
Qed.

Lemma same_shape_masked (sl tl : grid rgb) :
  same_shape sl tl -> same_shape sl (masked_colors sl tl).
Proof.
  unfold same_shape, masked_colors.
  induction 1 as [|r s a b Hrs _ IH]; simpl; constructor; [|exact IH].
  rewrite length_zip_with. lia.
Qed.

(** X17. The label half of the masking reaches the screen: with the
    difference panel on and label images and maps of one shape, the label
    difference [set_diff] displays exists, however the range half ends,
    and is black at every pixel where the source is black, whatever the
    target holds there and whatever the element type of the images. *)
Theorem set_diff_label_panel (prec emax : Z)
    (conv : grid spec_float -> grid spec_float)
    (self : LaserScanVis) (src : LaserScan) (tgt : AdaptedScan) (t : LaserScan)
    (sl tl : grid rgb) (sm tm : grid Z) :
  show_diff self = true ->
  proj_color src = Some sl -> label_map src = Some sm ->
  Vis.labelled_target tgt = Ok t ->
  proj_color t = Some tl -> label_map t = Some tm ->
  same_shape sl tl -> same_shape sm tm ->
  exists shown,
    diff_image_label (panels (fst (fst (Vis.set_diff prec emax conv self src tgt))))
    = Some shown
    /\ forall i j x,
        pixel sl i j = Some black_rgb -> pixel tl i j = Some x ->
        pixel shown i j = Some black_rgb.
Proof.
  intros Hshow Hsl Hsm Ht Htl Htm Hc Hm.
  unfold Vis.set_diff. rewrite Hshow. cbn [negb].
  unfold get_label_map. rewrite Hsl, Hsm, Ht.
  cbn [getattr mbind result_bind]. rewrite Htl, Htm.
  cbn [getattr mbind result_bind].
  rewrite mask_assign_same_shape by (apply same_shape_grid_map, Hc).
  rewrite mask_assign_same_shape by (apply same_shape_grid_map, Hm).
  unfold Vis.black_mask. rewrite !zip_with_grid_map_l.
  fold (masked_colors sl tl). cbv zeta.
  unfold Vis.label_diff.
  rewrite elementwise_same_shape by (apply same_shape_masked, Hc).
  set (dt := Vis.promote _ _).
  exists (grid_map reverse_channels
            (zip_with (zip_with (rgb_abs_sub dt)) sl (masked_colors sl tl))).
  split; [repeat case_match; reflexivity|].
  intros i j x Hb Hx. rewrite pixel_grid_map.
  erewrite pixel_zip_with; [|exact Hb|].
  2: { unfold masked_colors. erewrite pixel_zip_with by eassumption. reflexivity. }
  destruct dt; reflexivity.
Qed.

(** An instance of X17 on the one-pixel scans. *)
Lemma set_diff_label_panel_witness :
  exists shown,
    diff_image_label
      (panels (fst (fst (Vis.set_diff 53 1024 id diff_vis demo_source demo_target))))
    = Some shown
    /\ forall i j x,
        pixel [[black_rgb]] i j = Some black_rgb ->
        pixel [[(245, 150, 100)]] i j = Some x ->
        pixel shown i j = Some black_rgb.
Proof.
  apply (set_diff_label_panel 53 1024 id diff_vis demo_source demo_target
           (scan_of demo_target) [[black_rgb]] [[(245, 150, 100)]] [[0]] [[10]]);
    try reflexivity; repeat constructor.
Defined.

(** ** The range difference is never negative *)

Lemma binary_round_aux_positive prec emax m e l :
  nan_or_positive (binary_round_aux prec emax false m e l).
Proof.
  unfold binary_round_aux.
  destruct (shr_fexp prec emax m e l) as [mrs e'].
  destruct (shr_fexp prec emax _ e' loc_Exact) as [mrs' e''].
  destruct (shr_m mrs'); simpl; auto.
  destruct (e'' <=? emax - prec); reflexivity.
Qed.

Lemma square_positive prec emax x : nan_or_positive (Np.square prec emax x).
Proof.
  destruct x as [s|s| |s m e]; unfold Np.square, Np.mul; simpl;
    try (destruct s; reflexivity); [exact I|].
  replace (xorb s s) with false by (destruct s; reflexivity).
  apply binary_round_aux_positive.
Qed.

Lemma zip_exact_Forall {A B C} (P : C -> Prop) e (f : A -> B -> result C) la :
  (forall a b c, f a b = Ok c -> P c) ->
  forall lb lc, zip_exact e f la lb = Ok lc -> Forall P lc.
Proof.
  intros Hf. induction la as [|a la IH]; intros [|b lb] lc H; simpl in H;
    try discriminate H.
  - injection H as <-. constructor.
  - destruct (f a b) as [c|] eqn:Hc; cbn [mbind result_bind] in H; [|discriminate H].
    destruct (zip_exact e f la lb) as [cs|] eqn:Hcs; cbn [mbind result_bind] in H;
      [|discriminate H].
    injection H as <-. constructor; [eapply Hf, Hc|eapply IH, Hcs].
Qed.

Lemma mapM_Forall {A C} (P : C -> Prop) (f : A -> result C) l :
  (forall a c, f a = Ok c -> P c) ->
  forall lc, mapM f l = Ok lc -> Forall P lc.
Proof.
  intros Hf. induction l as [|a l IH]; intros lc H; simpl in H.
  - injection H as <-. constructor.
  - destruct (f a) as [c|] eqn:Hc; cbn [mbind result_bind] in H; [|discriminate H].
    destruct (mapM f l) as [cs|] eqn:Hcs; cbn [mbind result_bind] in H;
      [|discriminate H].
    injection H as <-. constructor; [eapply Hf, Hc|eapply IH; reflexivity].
Qed.

Lemma broadcast_Forall {A B C} (P : C -> Prop) (f : A -> B -> result C) la lb lc :
  (forall a b c, f a b = Ok c -> P c) ->
  broadcast f la lb = Ok lc -> Forall P lc.
Proof.
  intros Hf. unfold broadcast.
  destruct (Nat.eqb (length la) (length lb)); [apply zip_exact_Forall, Hf|].
  destruct la as [|a [|a' la]], lb as [|b [|b' lb]]; try discriminate;
    apply mapM_Forall; intros x c; apply Hf.
Qed.

(** X18. Whatever two range images [set_diff] is given, of one shape or
    broadcast, the squared difference it computes holds no negative value:
    each entry is NaN or has its sign bit clear. *)
Theorem range_diff_not_negative (prec emax : Z) (a b d : grid spec_float) :
  Vis.range_diff prec emax a b = Ok d ->
  Forall (Forall nan_or_positive) d.
Proof.
  unfold Vis.range_diff, elementwise. apply broadcast_Forall.
  intros r s row. apply broadcast_Forall.
  intros x y c H. injection H as <-. apply square_positive.
Qed.

(** An instance of X18: two 1 x 2 images. *)
Lemma range_diff_not_negative_witness :
  Forall (Forall nan_or_positive) [[f64 4; f64 25]].
Proof.
  apply (range_diff_not_negative 53 1024 [[f64 3; f64 0]] [[f64 1; f64 5]]).
  reflexivity.
Defined.

(** ** Showing a scan *)

Lemma range_colors_length prec emax fpow undef cmap frame :
  frame <> [] -> length (cmap "viridis") = 256%nat ->
  exists colors,
    Vis.range_colors prec emax fpow undef cmap frame = Ok colors
    /\ length colors = length frame.
Proof.
  intros Hne Hlen. unfold Vis.range_colors. cbv zeta.
  destruct (min_max_scale_nonempty prec emax (Vis.power_remap prec emax fpow 16 frame))
    as (scaled & -> & Hls).
  { unfold Vis.power_remap. destruct frame; [contradiction|discriminate]. }
  cbn [mbind result_bind].
  destruct (take_rows_in_range (cmap "viridis") (map (Np.astype_uint8 undef) scaled))
    as (rows & -> & Hlr & _).
  { rewrite Hlen. apply Forall_forall. intros i Hi.
    apply list_elem_of_In, in_map_iff in Hi as (x & <- & _).
    pose proof (astype_uint8_bounds undef x). lia. }
  cbn [mbind result_bind]. eexists. split; [reflexivity|].
  rewrite length_map, Hlr, length_map, Hls. unfold Vis.power_remap. apply length_map.
Qed.

(** X19. [set_laserscan] on a scan without label colours, with a colour
    map of 256 rows: a scan with no point raises [ValueError] (the minimum
    of an empty array) and leaves the viewer as it was; a scan with points
    gets one colour per point on the 3-D view, and the call then raises
    only if the image visual is missing (labels not shown). *)
Theorem set_laserscan_unlabelled (prec emax : Z)
    (fpow : spec_float -> spec_float -> spec_float) (undef : spec_float -> Z)
    (get_mpl_colormap : string -> list rgb)
    (convert_range : grid spec_float -> grid spec_float)
    (self : LaserScanVis) (scan : LaserScan) :
  label_color scan = None ->
  length (get_mpl_colormap "viridis") = 256%nat ->
  let result :=
    Vis.set_laserscan prec emax fpow undef get_mpl_colormap convert_range self scan in
  (unproj_range scan = [] -> result = (self, Some ValueError))
  /\ (unproj_range scan <> [] ->
      exists colors,
        length colors = length (unproj_range scan)
        /\ scan_vis (panels (fst result)) = Some (points scan, colors)
        /\ snd result = if show_label self then None else Some AttributeError).
Proof.
  intros Hlab Hlen result. subst result. unfold Vis.set_laserscan. rewrite Hlab.
  split.
  - intros ->. reflexivity.
  - intros Hne.
    destruct (range_colors_length prec emax fpow undef get_mpl_colormap
                (unproj_range scan) Hne Hlen) as (colors & -> & Hl).
    exists colors. split; [exact Hl|].
    cbv zeta. change (show_label (Vis.set_scan_vis ?d self)) with (show_label self).
    destruct (show_label self); split; reflexivity.
Qed.

(** An instance of X19: no point, and two points. *)
Lemma set_laserscan_unlabelled_witness :
  Vis.set_laserscan 53 1024 root16 (fun _ => 0) gray_map id demo_vis demo_source
  = (demo_vis, Some ValueError)
  /\ exists colors,
      length colors = 2%nat
      /\ scan_vis (panels (fst (Vis.set_laserscan 53 1024 root16 (fun _ => 0)
                                  gray_map id demo_vis
                                  {| points := []; unproj_range := [f64 1; f64 65536];
                                     label_color := None; proj_range := [];
                                     proj_color := None; label_map := None;
                                     color_type := Wide; nclasses := 0 |})))
         = Some ([], colors).
Proof.
  destruct (set_laserscan_unlabelled 53 1024 root16 (fun _ => 0) gray_map id
              demo_vis demo_source eq_refl eq_refl) as [Hempty _].
  destruct (set_laserscan_unlabelled 53 1024 root16 (fun _ => 0) gray_map id
              demo_vis
              {| points := []; unproj_range := [f64 1; f64 65536];
                 label_color := None; proj_range := [];
                 proj_color := None; label_map := None;
                 color_type := Wide; nclasses := 0 |} eq_refl eq_refl)
    as [_ Hfull].
  split; [apply Hempty; reflexivity|].
  destruct Hfull as (colors & Hl & Hs & _); [discriminate|].
  exists colors. split; [exact Hl|exact Hs].
Defined.

(** ** The 3-D view of the source *)

Lemma remission_index_rows prec emax undef table (rem : list spec_float) :
  length table = 256%nat ->
  exists rows,
    Vis.take_rows table (remission_index prec emax undef rem) = Ok rows
    /\ length rows = length rem.
Proof.
  intros Hlen.
  destruct (take_rows_in_range table (remission_index prec emax undef rem))
    as (rows & Hrows & Hl & _).
  { rewrite Hlen. apply Forall_forall. intros i Hi. unfold remission_index in Hi.
    apply list_elem_of_In, in_map_iff in Hi as (x & <- & _).
    pose proof (astype_uint8_bounds undef
                  (Np.mul prec emax x (Np.of_Z prec emax 255))). lia. }
  exists rows. split; [exact Hrows|].
  rewrite Hl. unfold remission_index. apply length_map.
Qed.

(** X20. [set_source_3d] assigns its colour indices under the modes
    "range" and "rem" only: with any display mode other than the three of
    the viewer it raises [UnboundLocalError]; a viewer built by
    [__init__] and changed by its methods and by the assignments of the
    driver never has such a mode, and so never raises it. *)
Theorem set_source_3d_bound (prec emax : Z)
    (fpow : spec_float -> spec_float -> spec_float) (undef : spec_float -> Z)
    (get_mpl_colormap : string -> list rgb)
    (self : LaserScanVis) (scan_source : SourceScan) :
  (reachable self ->
   snd (set_source_3d prec emax fpow undef get_mpl_colormap self scan_source)
   <> Some UnboundLocalError)
  /\ (~ is_view_mode (view_mode self) ->
      set_source_3d prec emax fpow undef get_mpl_colormap self scan_source
      = (self, Some UnboundLocalError)).
Proof.
  unfold set_source_3d, source_colors, is_view_mode. split.
  - intros Hr. destruct (reachable_view_mode self Hr) as [-> | [-> | ->]];
      cbn [String.eqb Ascii.eqb Bool.eqb].
    + destruct (label_color (source_scan scan_source)); simpl; discriminate.
    + destruct (Vis.min_max_scale _ _ _) as [scaled|e]; [|simpl; discriminate].
      destruct (Vis.take_rows _ _); simpl; discriminate.
    + destruct (Vis.take_rows _ _); simpl; discriminate.
  - intros Hn.
    destruct (String.eqb_spec (view_mode self) "label") as [E|_]; [tauto|].
    destruct (String.eqb_spec (view_mode self) "range") as [E|_]; [tauto|].
    destruct (String.eqb_spec (view_mode self) "rem") as [E|_]; [tauto|].
    reflexivity.
Qed.

(** An instance of X20: a mode set from outside; and the viewer of the
    driver, told of two frames, after the key 3. *)
Lemma set_source_3d_bound_witness :
  set_source_3d 53 1024 root16 (fun _ => 0) gray_map
    (Vis.with_view_mode "depth" demo_vis)
    {| source_scan := demo_source; remissions := [] |}
  = (Vis.with_view_mode "depth" demo_vis, Some UnboundLocalError)
  /\ snd (set_source_3d 53 1024 root16 (fun _ => 0) gray_map
            (Vis.key_press (with_nframes 2 demo_vis) "3")
            {| source_scan := demo_source; remissions := [] |})
     <> Some UnboundLocalError.
Proof.
  destruct (set_source_3d_bound 53 1024 root16 (fun _ => 0) gray_map
              (Vis.with_view_mode "depth" demo_vis)
              {| source_scan := demo_source; remissions := [] |}) as [_ H1].
  destruct (set_source_3d_bound 53 1024 root16 (fun _ => 0) gray_map
              (Vis.key_press (with_nframes 2 demo_vis) "3")
              {| source_scan := demo_source; remissions := [] |}) as [H2 _].
  split.
  - apply H1. unfold is_view_mode. simpl. intros [H|[H|H]]; discriminate H.
  - apply H2. apply reach_key_press, reach_nframes, reach_init.
Defined.

(** X21. In the mode "rem", with a colour map of 256 rows, [set_source_3d]
    never raises and shows one colour per remission value, also for a
    scan without points; in the mode "range" a scan without points raises
    [ValueError] and leaves the viewer as it was. *)
Theorem set_source_3d_modes (prec emax : Z)
    (fpow : spec_float -> spec_float -> spec_float) (undef : spec_float -> Z)
    (get_mpl_colormap : string -> list rgb)
    (self : LaserScanVis) (scan_source : SourceScan) :
  length (get_mpl_colormap "viridis") = 256%nat ->
  (view_mode self = "rem" ->
   exists colors,
     set_source_3d prec emax fpow undef get_mpl_colormap self scan_source
     = (Vis.set_scan_vis (points (source_scan scan_source), colors) self, None)
     /\ length colors = length (remissions scan_source))
  /\ (view_mode self = "range" ->
      unproj_range (source_scan scan_source) = [] ->
      set_source_3d prec emax fpow undef get_mpl_colormap self scan_source
      = (self, Some (Exception ValueError))).
Proof.
  intros Hlen. unfold set_source_3d, source_colors. split.
  - intros ->. cbn [String.eqb Ascii.eqb Bool.eqb].
    destruct (remission_index_rows prec emax undef (get_mpl_colormap "viridis")
                (remissions scan_source) Hlen) as (rows & -> & Hl).
    cbn [lift]. eexists. split; [reflexivity|]. rewrite length_map. exact Hl.
  - intros -> ->. reflexivity.
Qed.

(** An instance of X21: three remission values, after the key 3. *)
Lemma set_source_3d_modes_witness :
  exists colors,
    set_source_3d 53 1024 root16 (fun _ => 0) gray_map (Vis.key_press demo_vis "3")
      {| source_scan := demo_source; remissions := [f64 0; f64 1; f64 0] |}
    = (Vis.set_scan_vis ([], colors) (Vis.key_press demo_vis "3"), None)
    /\ length colors = 3%nat.
Proof.
  destruct (set_source_3d_modes 53 1024 root16 (fun _ => 0) gray_map
              (Vis.key_press demo_vis "3")
              {| source_scan := demo_source; remissions := [f64 0; f64 1; f64 0] |}
              eq_refl) as [H _].
  apply H. reflexivity.
Defined.

(** ** Start-up, continued *)

Lemma name_le_total : Total name_le.
Proof. intros a b. unfold name_le. apply String.leb_total. Qed.

(** X22. The start-up gets past its checks exactly when the configuration
    loads, the sequence folder exists and, unless semantics are ignored,
    the labels folder exists and holds as many files as the sequence
    folder; with semantics ignored the labels folder is not looked at. *)
Theorem discover_goes_on (FLAGS : Flags) (fs : Files) :
  goes_on (discover FLAGS fs) = true
  <-> yaml_failure fs (config FLAGS) = None
      /\ isdir fs (scan_paths FLAGS) = true
      /\ (ignore_semantics FLAGS = true
          \/ (isdir fs (label_paths FLAGS) = true
              /\ length (walk fs (label_paths FLAGS))
                 = length (walk fs (scan_paths FLAGS)))).
Proof.
  unfold discover. cbv zeta.
  destruct (yaml_failure fs (config FLAGS)); [split; [discriminate|intros [H _]; discriminate H]|].
  destruct (isdir fs (scan_paths FLAGS)); cbn [negb];
    [|split; [discriminate|intros (_ & H & _); discriminate H]].
  destruct (ignore_semantics FLAGS); [split; [auto|reflexivity]|].
  destruct (isdir fs (label_paths FLAGS)); cbn [negb];
    [|split; [discriminate|intros (_ & _ & [H|[H _]]); discriminate H]].
  rewrite !length_sort_names.
  destruct (Nat.eqb_spec (length (walk fs (label_paths FLAGS)))
                         (length (walk fs (scan_paths FLAGS)))) as [E|E].
  - split; [auto|reflexivity].
  - split; [discriminate|]. intros (_ & _ & [H|[_ H]]); [discriminate H|contradiction].
Qed.

(** X23. The names the start-up hands on are those the walk found, in
    lexicographic order: the scan names are a sorted permutation of the
    files below the sequence folder, and so are the label names of those
    below the labels folder; with semantics ignored there are no label
    names. *)
Theorem discover_names_sorted (FLAGS : Flags) (fs : Files)
    (scan_names : list string) (label_names : option (list string))
    (printed : list string) :
  discover FLAGS fs = Discovered scan_names label_names printed ->
  scan_names ≡ₚ walk fs (scan_paths FLAGS)
  /\ Sorted name_le scan_names
  /\ match label_names with
     | None => ignore_semantics FLAGS = true
     | Some names =>
         ignore_semantics FLAGS = false
         /\ names ≡ₚ walk fs (label_paths FLAGS)
         /\ Sorted name_le names
         /\ length names = length scan_names
     end.
Proof.
  unfold discover. cbv zeta.
  destruct (yaml_failure fs (config FLAGS)); [discriminate|].
  destruct (isdir fs (scan_paths FLAGS)); cbn [negb]; [|discriminate].
  destruct (ignore_semantics FLAGS).
  - intros H. injection H as <- <- _.
    split; [apply merge_sort_Permutation|].
    split; [apply (Sorted_merge_sort _ (Total0 := name_le_total))|reflexivity].
  - destruct (isdir fs (label_paths FLAGS)); cbn [negb]; [|discriminate].
    destruct (Nat.eqb_spec (length (sort_names (walk fs (label_paths FLAGS))))
                           (length (sort_names (walk fs (scan_paths FLAGS)))))
      as [E|E]; [|discriminate].
    intros H. injection H as <- <- _.
    split; [apply merge_sort_Permutation|].
    split; [apply (Sorted_merge_sort _ (Total0 := name_le_total))|].
    split; [reflexivity|]. split; [apply merge_sort_Permutation|].
    split; [apply (Sorted_merge_sort _ (Total0 := name_le_total))|exact E].
Qed.

(** An instance of X23: semantics ignored, two scans found out of order. *)
Lemma discover_names_sorted_witness :
  discover {| dataset := "/data"; config := "c.yaml"; sequence := "00";
              predictions := None; ignore_semantics := true; offset := 0 |}
           demo_files
  = Discovered ["/data/sequences/00/velodyne/000000.bin";
                "/data/sequences/00/velodyne/000001.bin"] None
      ["Opening config file c.yaml";
       "Sequence folder exists! Using sequence from /data/sequences/00/velodyne"]
  /\ Sorted name_le ["/data/sequences/00/velodyne/000000.bin";
                    "/data/sequences/00/velodyne/000001.bin"].
Proof.
  assert (E : discover {| dataset := "/data"; config := "c.yaml"; sequence := "00";
                          predictions := None; ignore_semantics := true; offset := 0 |}
                       demo_files
              = Discovered ["/data/sequences/00/velodyne/000000.bin";
                            "/data/sequences/00/velodyne/000001.bin"] None
                  ["Opening config file c.yaml";
                   "Sequence folder exists! Using sequence from /data/sequences/00/velodyne"])
    by (vm_compute; reflexivity).
  split; [exact E|].
  destruct (discover_names_sorted _ _ _ _ _ E) as (_ & Hs & _). exact Hs.
Defined.
